(** * github-committer: the commit orchestration protocol

    A shallow embedding of [main.go] and [gh-graphql.go].  The program is a
    straight-line orchestration of local git reads and remote GraphQL calls;
    it is modelled here as a computation that reads the answers of its
    collaborators from a [World] and writes the calls it makes to a trace. *)

From Stdlib Require Import String Ascii List NArith.
From Stdlib Require Strings.Byte.
From Stdlib Require Import Sorting.Sorted.
From stdpp Require Import base option list gmap strings fin_maps.

Open Scope string_scope.

(** ** Data model *)

(** Go's [error] values are rendered with [%s] everywhere they are used, so
    an error is modelled by its message. *)
Definition error := string.

(** Answer of a library call following the [(value, err)] convention, where
    the value is the zero value whenever [err != nil]. *)
Inductive Result (A : Type) : Type :=
| OK (a : A)
| Err (e : error).
Arguments OK {A} a.
Arguments Err {A} e.

(** go-git's [StatusCode]. *)
Inductive StatusCode : Type :=
| Unmodified | Untracked | Modified | Added
| Deleted | Renamed | Copied | UpdatedButUnmerged.

Definition StatusCode_eqb (a b : StatusCode) : bool :=
  match a, b with
  | Unmodified, Unmodified | Untracked, Untracked | Modified, Modified
  | Added, Added | Deleted, Deleted | Renamed, Renamed | Copied, Copied
  | UpdatedButUnmerged, UpdatedButUnmerged => true
  | _, _ => false
  end.

(** go-git's [FileStatus]: independent staged and unstaged states. *)
Record FileStatus : Type := mkFileStatus {
  Staging : StatusCode;
  Worktree : StatusCode
}.

(** go-git's [Status] is [map[string]*FileStatus]. *)
Abbreviation Status := (gmap string FileStatus).

(** [plumbing.Hash], kept as the hexadecimal text [Hash.String()] returns. *)
Definition Hash := string.
Definition Hash_String (h : Hash) : string := h.

Record Reference : Type := mkReference {
  ref_Name : string;
  ref_Hash : Hash
}.

(** The part of a local [git.Repository] the program reads: what [HEAD]
    resolves to, the (resolved) references by name, the configured remotes. *)
Record Repository : Type := mkRepository {
  repo_HEAD : Result Reference;
  repo_refs : gmap string Reference;
  repo_remotes : list string
}.

Record Opts : Type := mkOpts {
  Repository_ : string;
  BranchName : string;
  Message : string;
  PullRequest : bool
}.

(** Outcome of [parser.Parse()] as [main] distinguishes it. *)
Inductive ParseResult : Type :=
| ParseOk (opts : Opts)
| ParseErrHelp
| ParseErrFlags
| ParseErrOther (e : error).

(** githubv4 input objects, with the fields the program sets. *)
Record FileAddition : Type := mkFileAddition {
  Path : string;
  Contents : string
}.

Record CommittableBranch : Type := mkCommittableBranch {
  RepositoryNameWithOwner : option string;
  CB_BranchName : option string
}.

Record CreateCommitOnBranchInput : Type := mkCreateCommitOnBranchInput {
  Branch : CommittableBranch;
  Headline : string;
  Additions : list FileAddition;
  ExpectedHeadOid : string
}.

Record CreateRefInput : Type := mkCreateRefInput {
  CR_RepositoryID : string;
  CR_Name : string;
  CR_Oid : string
}.

Record CreatePullRequestInput : Type := mkCreatePullRequestInput {
  PR_RepositoryID : string;
  BaseRefName : string;
  HeadRefName : string;
  Title : string
}.

(** The two query shapes and three mutations of [gh-graphql.go].  Query
    variables are the Go [map[string]interface{}] literal. *)
Inductive Query : Type :=
| QueryRefName (variables : gmap string string)
| QueryMainOid (variables : gmap string string).

Inductive Mutation : Type :=
| MutCreateRef (input : CreateRefInput)
| MutCreateCommitOnBranch (input : CreateCommitOnBranchInput)
| MutCreatePullRequest (input : CreatePullRequestInput).

(** ** Effects *)

Inductive Event : Type :=
| EvLog (line : string)
| EvQuery (q : Query)
| EvMutate (m : Mutation)
| EvFetch (remote : string).

Inductive RuntimeError : Type :=
| IndexOutOfRange (index len : nat)
| NilDereference.

(** How a computation ends: it returns, the process exits with a code
    ([os.Exit], [log.Fatalf]), or the Go runtime panics. *)
Inductive Res (A : Type) : Type :=
| Ret (a : A)
| Exit (code : nat)
| Panic (e : RuntimeError).
Arguments Ret {A} a.
Arguments Exit {A} code.
Arguments Panic {A} e.

Definition M (A : Type) : Type := (list Event * Res A)%type.

Definition ret {A} (a : A) : M A := ([], Ret a).

Definition bind {A B} (m : M A) (f : A -> M B) : M B :=
  match m with
  | (t, Ret a) => let '(t', r) := f a in ((t ++ t')%list, r)
  | (t, Exit c) => (t, Exit c)
  | (t, Panic e) => (t, Panic e)
  end.

Declare Scope go_scope.
Delimit Scope go_scope with go.
Notation "x <- c1 ;; c2" := (bind c1 (fun x => c2))
  (at level 100, c1 at next level, right associativity) : go_scope.
Notation "c1 ;;; c2" := (bind c1 (fun _ => c2))
  (at level 100, right associativity) : go_scope.
Open Scope go_scope.

Definition trace {A} (m : M A) : list Event := fst m.
Definition result {A} (m : M A) : Res A := snd m.

Definition emit (e : Event) : M unit := ([e], Ret tt).
Definition log_Printf (line : string) : M unit := emit (EvLog line).
Definition os_Exit {A} (code : nat) : M A := ([], Exit code).
Definition log_Fatalf {A} (line : string) : M A := ([EvLog line], Exit 1).
Definition panic {A} (e : RuntimeError) : M A := ([], Panic e).

(** Indexing a slice: [s[i]] panics out of range. *)
Definition index {A} (s : list A) (i : nat) : M A :=
  match s !! i with
  | Some x => ret x
  | None => panic (IndexOutOfRange i (length s))
  end.

(** Dereferencing a pointer. *)
Definition deref {A} (p : option A) : M A :=
  match p with
  | Some x => ret x
  | None => panic NilDereference
  end.

(** A remote API call is a GraphQL query or mutation, or a git fetch. *)
Definition is_remote (e : Event) : bool :=
  match e with
  | EvLog _ => false
  | EvQuery _ | EvMutate _ | EvFetch _ => true
  end.

Definition remote_calls (t : list Event) : list Event := filter is_remote t.

(** ** Library functions the program calls *)

(** [base64.StdEncoding.EncodeToString]. *)
Definition encodeStd : string :=
  "ABCDEFGHIJKLMNOPQRSTUVWXYZabcdefghijklmnopqrstuvwxyz0123456789+/".

Definition enc (n : N) : ascii :=
  match String.get (N.to_nat n) encodeStd with
  | Some c => c
  | None => "="%char
  end.

Definition sextet (val : N) (shift : N) : ascii :=
  enc (N.land (N.shiftr val shift) 63).

Fixpoint EncodeToString (src : list Byte.byte) : string :=
  match src with
  | [] => ""
  | [a] =>
      let val := N.shiftl (Byte.to_N a) 16 in
      String (sextet val 18) (String (sextet val 12) "==")
  | [a; b] =>
      let val := N.lor (N.shiftl (Byte.to_N a) 16) (N.shiftl (Byte.to_N b) 8) in
      String (sextet val 18) (String (sextet val 12) (String (sextet val 6) "="))
  | a :: b :: c :: rest =>
      let val := N.lor (N.shiftl (Byte.to_N a) 16)
                   (N.lor (N.shiftl (Byte.to_N b) 8) (Byte.to_N c)) in
      String (sextet val 18) (String (sextet val 12)
        (String (sextet val 6) (String (sextet val 0) (EncodeToString rest))))
  end.

(** [strings.Split(s, "/")]: the pieces of [s] between separators; a string
    without separator is returned whole, as the only piece. *)
Definition slash : ascii := "/"%char.

Fixpoint Split_slash (s : string) : list string :=
  match s with
  | EmptyString => [""]
  | String c r =>
      if Ascii.eqb c slash then "" :: Split_slash r
      else match Split_slash r with
           | piece :: pieces => String c piece :: pieces
           | [] => [String c ""]
           end
  end.

Fixpoint has_slash (s : string) : bool :=
  match s with
  | EmptyString => false
  | String c r => Ascii.eqb c slash || has_slash r
  end.

(** ** The world the program runs in *)

Record World : Type := mkWorld {
  (** [git.PlainOpen(".")], [repo.Worktree()], [worktree.Status()] *)
  git_PlainOpen : Result Repository;
  repo_Worktree : Result unit;
  worktree_Status : Result Status;
  (** the order in which [range] visits the status map *)
  range_Status : Status -> list (string * FileStatus);
  (** [os.ReadFile]: the bytes read and the error, if any; a file that
      cannot be opened gives no bytes and an error *)
  os_ReadFile : string -> list Byte.byte * option error;
  (** [remote.Fetch]: the error, if any, and the repository afterwards *)
  remote_Fetch : Repository -> Repository * option error;
  (** [client.Query] and [client.Mutate], by operation *)
  Query_RefName : gmap string string -> Result string;
  Query_MainOid : gmap string string -> Result (string * string);
  Mutate_CreateRef : CreateRefInput -> option error;
  Mutate_CreateCommitOnBranch : CreateCommitOnBranchInput -> Result string;
  Mutate_CreatePullRequest : CreatePullRequestInput -> option error
}.

(** Go leaves the iteration order of a map unspecified; every entry is
    visited once. *)
Definition range_visits_all (w : World) : Prop :=
  forall m : Status, range_Status w m ≡ₚ map_to_list m.

(** ** The program *)

Section Program.

Variable w : World.

(** [if err != nil { log.Fatalf(prefix + "%s", err) }] *)
Definition fatal_on (err : option error) (prefix : string) : M unit :=
  match err with
  | Some e => log_Fatalf (prefix +:+ e)
  | None => ret tt
  end.

(** *** main.go *)

Definition openRepository : M (option Repository * Status * option error) :=
  match git_PlainOpen w with
  | Err e => ret (None, ∅, Some e)
  | OK repo =>
      match repo_Worktree w with
      | Err e => ret (None, ∅, Some e)
      | OK _ =>
          match worktree_Status w with
          | Err e => ret (None, ∅, Some e)
          | OK status => ret (Some repo, status, None)
          end
      end
  end.

(** [repo.Remote(name)], [repo.Head()], [repo.Reference(name, true)].  A
    failed lookup is given the text of [plumbing.ErrReferenceNotFound]; a
    name that go-git refuses as malformed fails with another text, which
    only changes the line [main] then writes. *)
Definition repo_Remote (repo : Repository) (name : string) : Result unit :=
  if bool_decide (name ∈ repo_remotes repo) then OK tt
  else Err "remote not found".

Definition repo_Head (repo : Repository) : option Reference * option error :=
  match repo_HEAD repo with
  | OK r => (Some r, None)
  | Err e => (None, Some e)
  end.

Definition repo_Reference (repo : Repository) (name : string)
  : option Reference * option error :=
  match repo_refs repo !! name with
  | Some r => (Some r, None)
  | None => (None, Some "reference not found")
  end.

Definition fetchRemote (repo : Repository) : M (Repository * option error) :=
  match repo_Remote repo "origin" with
  | Err e => ret (repo, Some e)
  | OK _ =>
      emit (EvFetch "origin") ;;;
      let '(repo', err) := remote_Fetch w repo in
      match err with
      | Some e => ret (repo', Some e)
      | None => ret (repo', None)
      end
  end.

(** The condition of the [if] in [addChanges]. *)
Definition qualifies (status : FileStatus) : bool :=
  StatusCode_eqb (Worktree status) Modified
  || StatusCode_eqb (Staging status) Added
  || StatusCode_eqb (Staging status) Modified.

(** The states that stand for a deletion, a rename, or no change at all. *)
Definition no_content_change (c : StatusCode) : bool :=
  match c with
  | Deleted | Renamed | Unmodified | Untracked => true
  | _ => false
  end.

Definition deletion_or_rename_only (status : FileStatus) : bool :=
  no_content_change (Staging status) && no_content_change (Worktree status).

(** One iteration of the [range] loop of [addChanges]. *)
Definition addChange (changes : list FileAddition) (entry : string * FileStatus)
  : M (list FileAddition) :=
  let '(name, status) := entry in
  if qualifies status then
    log_Printf ("adding " +:+ name) ;;;
    let '(b, _) := os_ReadFile w name in
    let content := EncodeToString b in
    ret (changes ++ [mkFileAddition name content])%list
  else ret changes.

Fixpoint range_loop (entries : list (string * FileStatus))
  (changes : list FileAddition) : M (list FileAddition) :=
  match entries with
  | [] => ret changes
  | entry :: rest =>
      changes' <- addChange changes entry ;;
      range_loop rest changes'
  end.

Definition addChanges (status : Status) : M (list FileAddition) :=
  changes <- range_loop (range_Status w status) [] ;;
  if Nat.eqb (length changes) 0 then
    log_Printf "no changes to commit, exiting" ;;;
    os_Exit 0
  else ret changes.

(** *** gh-graphql.go *)

Definition commitInput (changes : list FileAddition) (opts : Opts)
  (revision : Reference) : CreateCommitOnBranchInput :=
  {| Branch := {| RepositoryNameWithOwner := Some (Repository_ opts);
                  CB_BranchName := Some (BranchName opts) |};
     Headline := Message opts;
     Additions := changes;
     ExpectedHeadOid := Hash_String (ref_Hash revision) |}.

Definition DoCommit (changes : list FileAddition) (opts : Opts)
  (revision : option Reference) : M (option error) :=
  rev <- deref revision ;;
  let input := commitInput changes opts rev in
  emit (EvMutate (MutCreateCommitOnBranch input)) ;;;
  match Mutate_CreateCommitOnBranch w input with
  | Err e => ret (Some e)
  | OK url =>
      log_Printf ("mutation complete: " +:+ url) ;;;
      ret None
  end.

Definition branchVariables (owner name branch : string) : gmap string string :=
  <["owner" := owner]> (<["name" := name]>
    (<["branchName" := "refs/heads/" +:+ branch]> ∅)).

Definition CheckBranchExists (opts : Opts) : M (bool * option error) :=
  owner <- index (Split_slash (Repository_ opts)) 0 ;;
  name <- index (Split_slash (Repository_ opts)) 1 ;;
  let variables := branchVariables owner name (BranchName opts) in
  emit (EvQuery (QueryRefName variables)) ;;;
  match Query_RefName w variables with
  | Err e => ret (false, Some e)
  | OK refName =>
      if negb (String.eqb refName "") then
        log_Printf ("branch found: " +:+ refName) ;;;
        ret (true, None)
      else
        log_Printf ("a branch with the name " +:+ BranchName opts
                    +:+ " was not found") ;;;
        ret (false, None)
  end.

Definition mainVariables (owner name : string) : gmap string string :=
  <["owner" := owner]> (<["name" := name]> ∅).

Definition getMainOid (opts : Opts) : M (string * string * option error) :=
  owner <- index (Split_slash (Repository_ opts)) 0 ;;
  name <- index (Split_slash (Repository_ opts)) 1 ;;
  let variables := mainVariables owner name in
  emit (EvQuery (QueryMainOid variables)) ;;;
  match Query_MainOid w variables with
  | Err e => ret ("", "", Some e)
  | OK (oid, id) => ret (oid, id, None)
  end.

Definition createRefInput (opts : Opts) (repoId oid : string) : CreateRefInput :=
  {| CR_RepositoryID := repoId;
     CR_Name := "refs/heads/" +:+ BranchName opts;
     CR_Oid := oid |}.

Definition CreateBranch (opts : Opts) (repoId oid : string) : M (option error) :=
  let input := createRefInput opts repoId oid in
  emit (EvMutate (MutCreateRef input)) ;;;
  match Mutate_CreateRef w input with
  | Some e => ret (Some e)
  | None =>
      log_Printf (BranchName opts +:+ " branch created") ;;;
      ret None
  end.

Definition pullRequestInput (opts : Opts) (repoId : string)
  : CreatePullRequestInput :=
  {| PR_RepositoryID := repoId;
     BaseRefName := "main";
     HeadRefName := BranchName opts;
     Title := Message opts |}.

Definition CreatePullRequest (opts : Opts) (repoId : string) : M (option error) :=
  let input := pullRequestInput opts repoId in
  emit (EvMutate (MutCreatePullRequest input)) ;;;
  match Mutate_CreatePullRequest w input with
  | Some e => ret (Some e)
  | None =>
      log_Printf ("pull request created " +:+ BranchName opts) ;;;
      ret None
  end.

(** *** main *)

(** The two arms of [if !branchExists] in [main]: each yields the reference
    whose hash the commit will expect at the head of the branch. *)
Definition resolveRevision (opts : Opts) (repo : option Repository)
  (repoId oid : string) (branchExists : bool) : M (option Reference) :=
  if negb branchExists then
    err <- CreateBranch opts repoId oid ;;
    fatal_on err "unable to create branch: " ;;;
    repo <- deref repo ;;
    let '(revision, err) := repo_Head repo in
    fatal_on err "unable to find HEAD revision: " ;;;
    ret revision
  else
    repo <- deref repo ;;
    r <- fetchRemote repo ;;
    let '(repo, err) := r in
    match err with
    | Some e => log_Printf ("unable to fetch remote: " +:+ e)
    | None => ret tt
    end ;;;
    let refName := "refs/remotes/origin/" +:+ BranchName opts in
    let '(revision, err) := repo_Reference repo refName in
    fatal_on err ("unable to find HEAD for branch " +:+ BranchName opts +:+ ": ") ;;;
    ret revision.

(** [main] after [createGhClient()], which makes no call. *)
Definition commitAndPullRequest (opts : Opts) (repo : option Repository)
  (changes : list FileAddition) : M unit :=
  r <- getMainOid opts ;;
  let '(oid, repoId, err) := r in
  fatal_on err "unable to lookup oid: " ;;;
  r <- CheckBranchExists opts ;;
  let '(branchExists, err) := r in
  fatal_on err "unable to lookup branch: " ;;;
  revision <- resolveRevision opts repo repoId oid branchExists ;;
  err <- DoCommit changes opts revision ;;
  fatal_on err "unable to commit: " ;;;
  if PullRequest opts then
    err <- CreatePullRequest opts repoId ;;
    fatal_on err "unable to create PR: "
  else ret tt.

Definition main (parsed : ParseResult) : M unit :=
  opts <- match parsed with
          | ParseErrHelp => os_Exit 0
          | ParseErrFlags => os_Exit 1
          | ParseOk opts => ret opts
          | ParseErrOther e => log_Fatalf e
          end ;;
  r <- openRepository ;;
  let '(repo, status, err) := r in
  fatal_on err "unable to open repository: " ;;;
  changes <- addChanges status ;;
  commitAndPullRequest opts repo changes.

End Program.

(** ** Reading a trace *)

Definition commit_requests (t : list Event) : list CreateCommitOnBranchInput :=
  omap (fun e => match e with
                 | EvMutate (MutCreateCommitOnBranch i) => Some i
                 | _ => None
                 end) t.

Definition createRef_requests (t : list Event) : list CreateRefInput :=
  omap (fun e => match e with
                 | EvMutate (MutCreateRef i) => Some i
                 | _ => None
                 end) t.

Definition pullRequest_requests (t : list Event) : list CreatePullRequestInput :=
  omap (fun e => match e with
                 | EvMutate (MutCreatePullRequest i) => Some i
                 | _ => None
                 end) t.

(** ** Example worlds *)

Definition file_bytes (s : string) : list Byte.byte := list_byte_of_string s.

Definition exampleRepository : Repository :=
  {| repo_HEAD := OK (mkReference "refs/heads/main" "1111");
     repo_refs := {[ "refs/remotes/origin/feature-x" := mkReference "refs/remotes/origin/feature-x" "2222" ]};
     repo_remotes := ["origin"] |}.

Definition exampleStatus : Status :=
  {[ "a.txt" := mkFileStatus Unmodified Modified;
     "b.txt" := mkFileStatus Added Deleted;
     "c.txt" := mkFileStatus Deleted Unmodified ]}.

Definition deletedStatus : Status :=
  {[ "c.txt" := mkFileStatus Deleted Unmodified;
     "d.txt" := mkFileStatus Unmodified Deleted ]}.

(** A world over [exampleRepository]: the working tree has [status], the
    remote answers the branch query with [refName], the branch-creation
    mutation with [createRef], and a fetch ends with [fetch]. *)
Definition exampleWorldOn (status : Status) (refName : string)
  (createRef : option error) (fetch : option error) : World :=
  {| git_PlainOpen := OK exampleRepository;
     repo_Worktree := OK tt;
     worktree_Status := OK status;
     range_Status := map_to_list;
     os_ReadFile := fun name =>
       if String.eqb name "a.txt" then (file_bytes "hi", None)
       else ([], Some ("open " +:+ name +:+ ": no such file or directory"));
     remote_Fetch := fun repo => (repo, fetch);
     Query_RefName := fun _ => OK refName;
     Query_MainOid := fun _ => OK ("9999", "R_1");
     Mutate_CreateRef := fun _ => createRef;
     Mutate_CreateCommitOnBranch := fun _ => OK "https://example/commit";
     Mutate_CreatePullRequest := fun _ => None |}.

Definition exampleWorld (status : Status) (refName : string) : World :=
  exampleWorldOn status refName None None.

(** The branch is new, and the local HEAD (1111) is not the tip of the
    remote default branch (9999). *)
Definition newBranchWorld : World := exampleWorld exampleStatus "".

(** The branch exists and the fetch fails. *)
Definition staleBranchWorld : World :=
  exampleWorldOn exampleStatus "feature-x" None (Some "authentication required").

(** The branch is new and its creation is refused. *)
Definition refusedBranchWorld : World :=
  exampleWorldOn exampleStatus "" (Some "permission denied") None.

Definition exampleChanges : list FileAddition :=
  [mkFileAddition "a.txt" "aGk="; mkFileAddition "b.txt" ""].

Definition exampleOpts : Opts :=
  {| Repository_ := "org/repo"; BranchName := "feature-x";
     Message := "msg"; PullRequest := true |}.

(** What the [range] loop of [addChanges] does, entry by entry: the entries
    that satisfy the condition, the addition built for one of them. *)
Definition selected (entries : list (string * FileStatus))
  : list (string * FileStatus) :=
  filter (fun entry => qualifies entry.2) entries.

Definition addition (w : World) (entry : string * FileStatus) : FileAddition :=
  mkFileAddition entry.1 (EncodeToString (os_ReadFile w entry.1).1).

(** The world [w] in which every read of a file reports no error. *)
Definition without_read_errors (w : World) : World :=
  {| git_PlainOpen := git_PlainOpen w;
     repo_Worktree := repo_Worktree w;
     worktree_Status := worktree_Status w;
     range_Status := range_Status w;
     os_ReadFile := fun name => ((os_ReadFile w name).1, None);
     remote_Fetch := remote_Fetch w;
     Query_RefName := Query_RefName w;
     Query_MainOid := Query_MainOid w;
     Mutate_CreateRef := Mutate_CreateRef w;
     Mutate_CreateCommitOnBranch := Mutate_CreateCommitOnBranch w;
     Mutate_CreatePullRequest := Mutate_CreatePullRequest w |}.

(** [opts] with the pull-request option set to [b]. *)
Definition with_PullRequest (b : bool) (opts : Opts) : Opts :=
  {| Repository_ := Repository_ opts; BranchName := BranchName opts;
     Message := Message opts; PullRequest := b |}.

(** A run of [main] on [opts] that gets as far as resolving the branch
    target: the repository opens, there are changes to commit, the resolver
    answers with the default-branch tip [oid] and the repository id, and the
    branch-existence check answers [branchExists]. *)
Definition reaches_resolution (w : World) (opts : Opts) (repo : Repository)
  (changes : list FileAddition) (oid repoId : string) (branchExists : bool)
  : Prop :=
  git_PlainOpen w = OK repo /\
  repo_Worktree w = OK tt /\
  (exists status,
     worktree_Status w = OK status /\
     result (addChanges w status) = Ret changes) /\
  result (getMainOid w opts) = Ret (oid, repoId, None) /\
  result (CheckBranchExists w opts) = Ret (branchExists, None).

(** The entries of a changes list for one path. *)
Definition entries_for (name : string) (changes : list FileAddition)
  : list FileAddition :=
  filter (fun c => Path c = name) changes.

(** ** Further readings of a trace *)

Definition queries (t : list Event) : list Query :=
  omap (fun e => match e with
                 | EvQuery q => Some q
                 | _ => None
                 end) t.

Definition fetches (t : list Event) : list string :=
  omap (fun e => match e with
                 | EvFetch remote => Some remote
                 | _ => None
                 end) t.

Definition log_lines (t : list Event) : list string :=
  omap (fun e => match e with
                 | EvLog line => Some line
                 | _ => None
                 end) t.

(** The error, if any, with which the world answers a GraphQL call, and the
    prefix of the line [main] writes when that call fails. *)
Definition call_error (w : World) (call : Event) : option error :=
  match call with
  | EvQuery (QueryMainOid v) =>
      match Query_MainOid w v with Err e => Some e | OK _ => None end
  | EvQuery (QueryRefName v) =>
      match Query_RefName w v with Err e => Some e | OK _ => None end
  | EvMutate (MutCreateRef i) => Mutate_CreateRef w i
  | EvMutate (MutCreateCommitOnBranch i) =>
      match Mutate_CreateCommitOnBranch w i with Err e => Some e | OK _ => None end
  | EvMutate (MutCreatePullRequest i) => Mutate_CreatePullRequest w i
  | EvLog _ | EvFetch _ => None
  end.

Definition diagnostic (call : Event) : string :=
  match call with
  | EvQuery (QueryMainOid _) => "unable to lookup oid: "
  | EvQuery (QueryRefName _) => "unable to lookup branch: "
  | EvMutate (MutCreateRef _) => "unable to create branch: "
  | EvMutate (MutCreateCommitOnBranch _) => "unable to commit: "
  | EvMutate (MutCreatePullRequest _) => "unable to create PR: "
  | EvLog _ | EvFetch _ => ""
  end.

(** The place of a remote call in the protocol. *)
Definition call_rank (call : Event) : nat :=
  match call with
  | EvQuery (QueryMainOid _) => 1
  | EvQuery (QueryRefName _) => 2
  | EvMutate (MutCreateRef _) => 3
  | EvFetch _ => 3
  | EvMutate (MutCreateCommitOnBranch _) => 4
  | EvMutate (MutCreatePullRequest _) => 5
  | EvLog _ => 0
  end.

(** The 24-bit group the encoder builds from up to three bytes. *)
Definition group (x y z : N) : N :=
  N.lor (N.shiftl x 16) (N.lor (N.shiftl y 8) z).

(** The number of separators of an identifier, and [strings.Join(l, "/")]. *)
Fixpoint count_slash (s : string) : nat :=
  match s with
  | EmptyString => 0
  | String c r => (if Ascii.eqb c slash then 1 else 0) + count_slash r
  end.

Fixpoint Join_slash (pieces : list string) : string :=
  match pieces with
  | [] => ""
  | [piece] => piece
  | piece :: rest => piece +:+ String slash (Join_slash rest)
  end.

(** The world [w] whose [range] visits a map in the order [range]. *)
Definition with_range (range : Status -> list (string * FileStatus))
  (w : World) : World :=
  {| git_PlainOpen := git_PlainOpen w;
     repo_Worktree := repo_Worktree w;
     worktree_Status := worktree_Status w;
     range_Status := range;
     os_ReadFile := os_ReadFile w;
     remote_Fetch := remote_Fetch w;
     Query_RefName := Query_RefName w;
     Query_MainOid := Query_MainOid w;
     Mutate_CreateRef := Mutate_CreateRef w;
     Mutate_CreateCommitOnBranch := Mutate_CreateCommitOnBranch w;
     Mutate_CreatePullRequest := Mutate_CreatePullRequest w |}.

(** The world [w] with other answers to the commit and pull-request
    mutations. *)
Definition with_mutations (commit : Result string) (pullRequest : option error)
  (w : World) : World :=
  {| git_PlainOpen := git_PlainOpen w;
     repo_Worktree := repo_Worktree w;
     worktree_Status := worktree_Status w;
     range_Status := range_Status w;
     os_ReadFile := os_ReadFile w;
     remote_Fetch := remote_Fetch w;
     Query_RefName := Query_RefName w;
     Query_MainOid := Query_MainOid w;
     Mutate_CreateRef := Mutate_CreateRef w;
     Mutate_CreateCommitOnBranch := fun _ => commit;
     Mutate_CreatePullRequest := fun _ => pullRequest |}.

(** The world [w] with other answers to the two queries. *)
Definition with_queries (mainOid : Result (string * string))
  (refName : Result string) (w : World) : World :=
  {| git_PlainOpen := git_PlainOpen w;
     repo_Worktree := repo_Worktree w;
     worktree_Status := worktree_Status w;
     range_Status := range_Status w;
     os_ReadFile := os_ReadFile w;
     remote_Fetch := remote_Fetch w;
     Query_RefName := fun _ => refName;
     Query_MainOid := fun _ => mainOid;
     Mutate_CreateRef := Mutate_CreateRef w;
     Mutate_CreateCommitOnBranch := Mutate_CreateCommitOnBranch w;
     Mutate_CreatePullRequest := Mutate_CreatePullRequest w |}.

(** The world [w] in which the repository cannot be opened. *)
Definition with_PlainOpen (open : Result Repository) (w : World) : World :=
  {| git_PlainOpen := open;
     repo_Worktree := repo_Worktree w;
     worktree_Status := worktree_Status w;
     range_Status := range_Status w;
     os_ReadFile := os_ReadFile w;
     remote_Fetch := remote_Fetch w;
     Query_RefName := Query_RefName w;
     Query_MainOid := Query_MainOid w;
     Mutate_CreateRef := Mutate_CreateRef w;
     Mutate_CreateCommitOnBranch := Mutate_CreateCommitOnBranch w;
     Mutate_CreatePullRequest := Mutate_CreatePullRequest w |}.

(** A repository without a remote named origin, and a world on it in which
    the branch exists. *)
Definition noOriginRepository : Repository :=
  {| repo_HEAD := repo_HEAD exampleRepository;
     repo_refs := repo_refs exampleRepository;
     repo_remotes := ["upstream"] |}.

Definition noOriginWorld : World :=
  with_PlainOpen (OK noOriginRepository) staleBranchWorld.

(** A repository that has a reference under the name the previous revision
    of [main] looks up, and a world on it in which the branch is new. *)
Definition headMainRepository : Repository :=
  {| repo_HEAD := repo_HEAD exampleRepository;
     repo_refs := <["refs/head/main" := mkReference "refs/head/main" "3333"]>
                    (repo_refs exampleRepository);
     repo_remotes := ["origin"] |}.

Definition headMainWorld : World :=
  with_PlainOpen (OK headMainRepository) newBranchWorld.

(** ** The previous revision of [main]

    [main.go] also holds the revision of [main] from before [openRepository]
    and [fetchRemote] were split off.  Its [AddChanges], [createGhClient] and
    GraphQL functions are the ones above, word for word. *)
Module Previous.

Section Program.

Variable w : World.

Definition main (parsed : ParseResult) : M unit :=
  opts <- match parsed with
          | ParseErrHelp => os_Exit 0
          | ParseErrFlags => os_Exit 1
          | ParseOk opts => ret opts
          | ParseErrOther e => log_Fatalf e
          end ;;
  repo <- match git_PlainOpen w with
          | Err e => log_Fatalf ("unable to open repository: " +:+ e)
          | OK repo => ret repo
          end ;;
  match repo_Worktree w with
  | Err e => log_Fatalf ("unable to open repository: " +:+ e)
  | OK worktree => ret worktree
  end ;;;
  status <- match worktree_Status w with
            | Err e => log_Fatalf ("unable to open repository: " +:+ e)
            | OK status => ret status
            end ;;
  changes <- addChanges w status ;;
  r <- getMainOid w opts ;;
  let '(oid, repoId, err) := r in
  fatal_on err "unable to lookup oid: " ;;;
  r <- CheckBranchExists w opts ;;
  let '(branchExists, err) := r in
  fatal_on err "unable to lookup branch: " ;;;
  revision <-
    (if negb branchExists then
       err <- CreateBranch w opts repoId oid ;;
       fatal_on err "unable to create branch: " ;;;
       let '(revision, err) := repo_Reference repo "refs/head/main" in
       fatal_on err "unable to find HEAD for branch main: " ;;;
       ret revision
     else
       let refName := "refs/remotes/origin/" +:+ BranchName opts in
       let '(revision, err) := repo_Reference repo refName in
       fatal_on err ("unable to find HEAD for branch " +:+ BranchName opts
                     +:+ ": ") ;;;
       ret revision) ;;
  err <- DoCommit w changes opts revision ;;
  fatal_on err "unable to commit: " ;;;
  if PullRequest opts then
    CreatePullRequest w opts repoId ;;;
    fatal_on err "unable to create PR: "
  else ret tt.

End Program.

End Previous.

(** * Properties *)

(** ** The monad *)

Lemma trace_bind {A B} (m : M A) (f : A -> M B) :
  trace (bind m f) =
  match result m with
  | Ret a => (trace m ++ trace (f a))%list
  | _ => trace m
  end.
Proof.
  destruct m as [t [a|c|e]]; simpl; try reflexivity.
  destruct (f a); reflexivity.
Qed.

Lemma result_bind {A B} (m : M A) (f : A -> M B) :
  result (bind m f) =
  match result m with
  | Ret a => result (f a)
  | Exit c => Exit c
  | Panic e => Panic e
  end.
Proof.
  destruct m as [t [a|c|e]]; simpl; try reflexivity.
  destruct (f a); reflexivity.
Qed.

Lemma M_eta {A} (m : M A) : m = (trace m, result m).
Proof. destruct m; reflexivity. Qed.

Lemma bind_ret_l {A B} (a : A) (f : A -> M B) : bind (ret a) f = f a.
Proof. unfold bind, ret. by destruct (f a). Qed.

Lemma bind_ret_r {A} (m : M A) : bind m ret = m.
Proof. destruct m as [t [a|c|e]]; simpl; by rewrite ?app_nil_r. Qed.

Lemma bind_assoc {A B C} (m : M A) (f : A -> M B) (g : B -> M C) :
  bind (bind m f) g = bind m (fun a => bind (f a) g).
Proof.
  destruct m as [t [a|c|e]]; simpl; try reflexivity.
  destruct (f a) as [t' [b|c|e]]; simpl; try reflexivity.
  destruct (g b) as [t'' r]. by rewrite app_assoc.
Qed.

(** After [os.Exit] or a panic nothing more is written to the trace. *)
Lemma bind_Exit {A B} (t : list Event) (c : nat) (f : A -> M B) :
  bind (t, Exit c) f = (t, Exit c).
Proof. reflexivity. Qed.

Lemma bind_Panic {A B} (t : list Event) (e : RuntimeError) (f : A -> M B) :
  bind (t, Panic e) f = (t, Panic e).
Proof. reflexivity. Qed.

(** ** Change Collector *)

Lemma range_loop_eq (w : World) (entries : list (string * FileStatus))
  (changes : list FileAddition) :
  range_loop w entries changes =
  ((fun entry => EvLog ("adding " +:+ entry.1)) <$> selected entries,
   Ret (changes ++ (addition w <$> selected entries))%list).
Proof.
  revert changes.
  induction entries as [|[name status] rest IH]; intros changes.
  - simpl. unfold ret. by rewrite app_nil_r.
  - unfold selected. rewrite filter_cons. simpl.
    destruct (qualifies status) eqn:Hq; simpl.
    + destruct (os_ReadFile w name) as [b err] eqn:Hread. simpl.
      rewrite IH. simpl. unfold addition at 2. simpl. rewrite Hread. simpl.
      by rewrite <- app_assoc.
    + rewrite IH. reflexivity.
Qed.

Lemma qualifies_iff (st : FileStatus) :
  qualifies st = true <->
  Worktree st = Modified \/ Staging st = Added \/ Staging st = Modified.
Proof.
  unfold qualifies. destruct st as [s t]; simpl.
  destruct s, t; simpl; split; intros H; try reflexivity; try discriminate;
    try (right; left; reflexivity); try (right; right; reflexivity);
    try (left; reflexivity);
    destruct H as [H|[H|H]]; discriminate.
Qed.

Lemma selected_elem (entries : list (string * FileStatus)) name st :
  (name, st) ∈ selected entries <-> qualifies st = true /\ (name, st) ∈ entries.
Proof.
  unfold selected. rewrite list_elem_of_filter. simpl.
  by rewrite Is_true_true.
Qed.

Lemma range_elem (w : World) (status : Status) name st :
  range_visits_all w ->
  (name, st) ∈ range_Status w status <-> status !! name = Some st.
Proof.
  intros Hall. rewrite (Hall status). apply elem_of_map_to_list.
Qed.

Lemma range_NoDup (w : World) (status : Status) :
  range_visits_all w -> NoDup (range_Status w status).*1.
Proof.
  intros Hall. rewrite (Hall status). apply NoDup_fst_map_to_list.
Qed.

Lemma selected_paths (w : World) (entries : list (string * FileStatus)) name :
  name ∈ Path <$> (addition w <$> selected entries) <->
  exists st, (name, st) ∈ entries /\ qualifies st = true.
Proof.
  rewrite <- list_fmap_compose. rewrite list_elem_of_fmap. split.
  - intros [[n st] [-> Hin]]. apply selected_elem in Hin as [Hq Hin].
    exists st. by split.
  - intros [st [Hin Hq]]. exists (name, st). split; [done|].
    apply selected_elem. by split.
Qed.

Lemma entries_for_selected (w : World) (entries : list (string * FileStatus))
  name st :
  NoDup entries.*1 -> (name, st) ∈ entries ->
  entries_for name (addition w <$> selected entries) =
  if qualifies st then [addition w (name, st)] else [].
Proof.
  unfold entries_for, selected.
  induction entries as [|[n s] rest IH]; intros Hnd Hin.
  - by apply elem_of_nil in Hin.
  - rewrite fmap_cons in Hnd. apply NoDup_cons in Hnd as [Hfresh Hnd].
    simpl in Hfresh.
    assert (Hrest : forall s', (n, s') ∈ rest -> False).
    { intros s' Hs'. apply Hfresh. apply list_elem_of_fmap.
      by exists (n, s'). }
    rewrite filter_cons. simpl.
    apply elem_of_cons in Hin as [Heq|Hin].
    + inversion Heq; subst n s.
      assert (Hnone : filter (fun c => Path c = name)
                 (addition w <$> filter (fun entry => qualifies entry.2) rest) = []).
      { clear IH Hnd. induction rest as [|[n' s'] rest' IH']; [done|].
        rewrite filter_cons. simpl.
        assert (n' <> name).
        { intros ->. apply (Hrest s'). apply elem_of_cons. by left. }
        assert (Htl : filter (fun c => Path c = name)
                  (addition w <$> filter (fun entry => qualifies entry.2) rest') = []).
        { apply IH'.
          - intros Hin. apply Hfresh. rewrite fmap_cons. apply elem_of_cons. by right.
          - intros s'' Hs''. apply (Hrest s''). apply elem_of_cons. by right. }
        destruct (qualifies s'); simpl; [|done].
        rewrite filter_cons. simpl. by rewrite decide_False. }
      destruct (qualifies st); simpl; [|done].
      rewrite filter_cons. simpl. rewrite decide_True by done.
      f_equal. exact Hnone.
    + assert (n <> name) by (intros ->; by apply (Hrest st)).
      specialize (IH Hnd Hin).
      destruct (qualifies s); simpl; [|done].
      rewrite filter_cons. simpl. by rewrite decide_False.
Qed.

Lemma addChanges_eq (w : World) (status : Status) :
  addChanges w status =
  let sel := selected (range_Status w status) in
  match sel with
  | [] => ([EvLog "no changes to commit, exiting"], Exit 0)
  | _ => ((fun entry => EvLog ("adding " +:+ entry.1)) <$> sel,
          Ret (addition w <$> sel))
  end.
Proof.
  unfold addChanges. rewrite range_loop_eq. simpl.
  destruct (selected (range_Status w status)) as [|e sel]; simpl; [done|].
  by rewrite app_nil_r.
Qed.

(** C3. A path of the status mapping is selected by the Change Collector if
    and only if its unstaged state is modified, or its staged state is added,
    or its staged state is modified; a path whose two states are only
    deleted, renamed or untouched is never selected. *)
Theorem change_collector_selection (w : World) (status : Status) :
  range_visits_all w ->
  exists changes,
    result (range_loop w (range_Status w status) []) = Ret changes /\
    result (addChanges w status) =
      (if Nat.eqb (length changes) 0 then Exit 0 else Ret changes) /\
    (forall name,
       name ∈ Path <$> changes <->
       exists st, status !! name = Some st /\
         (Worktree st = Modified \/ Staging st = Added \/ Staging st = Modified)) /\
    (forall name st,
       status !! name = Some st ->
       deletion_or_rename_only st = true ->
       name ∉ Path <$> changes).
Proof.
  intros Hall.
  exists (addition w <$> selected (range_Status w status)).
  assert (Hsel : forall name,
    name ∈ Path <$> (addition w <$> selected (range_Status w status)) <->
    exists st, status !! name = Some st /\ qualifies st = true).
  { intros name. rewrite selected_paths.
    split; intros [st [H1 H2]]; exists st; split; try done;
      by apply (range_elem w status name st Hall). }
  split; [by rewrite range_loop_eq|]. split.
  - rewrite addChanges_eq. simpl.
    by destruct (selected (range_Status w status)).
  - split.
    + intros name. rewrite Hsel.
      split; intros [st [H1 H2]]; exists st; split; try done;
        by apply qualifies_iff.
    + intros name st Hst Hdel Hin. apply Hsel in Hin as [st' [Hst' Hq]].
      rewrite Hst in Hst'. inversion Hst'; subst st'.
      destruct st as [s t]. destruct s, t; discriminate.
Qed.

Lemma change_collector_selection_witness :
  exists changes,
    result (range_loop (exampleWorld exampleStatus "")
              (range_Status (exampleWorld exampleStatus "") exampleStatus) [])
      = Ret changes /\
    result (addChanges (exampleWorld exampleStatus "") exampleStatus) =
      (if Nat.eqb (length changes) 0 then Exit 0 else Ret changes) /\
    (forall name,
       name ∈ Path <$> changes <->
       exists st, exampleStatus !! name = Some st /\
         (Worktree st = Modified \/ Staging st = Added \/ Staging st = Modified)) /\
    (forall name st,
       exampleStatus !! name = Some st ->
       deletion_or_rename_only st = true ->
       name ∉ Path <$> changes).
Proof.
  apply (change_collector_selection (exampleWorld exampleStatus "") exampleStatus).
  intros m. reflexivity.
Defined.

(** A path staged as added and then removed from the working tree is still
    selected, through its staged state. *)
Lemma staged_then_deleted_selected :
  qualifies (mkFileStatus Added Deleted) = true.
Proof. reflexivity. Qed.

(** C8. A qualifying path has exactly one entry in the ChangeSet, holding the
    base64 encoding of the bytes read from the path; the error of the read
    is never looked at, and a read that fails with no bytes yields an entry
    with the encoding of empty content. *)
Theorem changeset_entry (w : World) (status : Status) name st :
  range_visits_all w ->
  status !! name = Some st ->
  qualifies st = true ->
  exists changes,
    result (addChanges w status) = Ret changes /\
    entries_for name changes =
      [mkFileAddition name (EncodeToString (os_ReadFile w name).1)] /\
    addChanges w status = addChanges (without_read_errors w) status /\
    (forall e, os_ReadFile w name = ([], Some e) ->
       entries_for name changes = [mkFileAddition name ""]).
Proof.
  intros Hall Hst Hq.
  assert (Hin : (name, st) ∈ range_Status w status) by by apply range_elem.
  assert (Hsel : (name, st) ∈ selected (range_Status w status))
    by by apply selected_elem.
  assert (Hfor : entries_for name (addition w <$> selected (range_Status w status))
                 = [addition w (name, st)]).
  { rewrite (entries_for_selected w _ name st); [by rewrite Hq| |done].
    by apply range_NoDup. }
  exists (addition w <$> selected (range_Status w status)).
  split; [|split; [|split]].
  - rewrite addChanges_eq. simpl.
    destruct (selected (range_Status w status)); [|done].
    by apply elem_of_nil in Hsel.
  - exact Hfor.
  - rewrite !addChanges_eq. reflexivity.
  - intros e Hread. rewrite Hfor. unfold addition. simpl. by rewrite Hread.
Qed.

Lemma changeset_entry_witness :
  exists changes,
    result (addChanges (exampleWorld exampleStatus "") exampleStatus) = Ret changes /\
    entries_for "b.txt" changes =
      [mkFileAddition "b.txt"
         (EncodeToString (os_ReadFile (exampleWorld exampleStatus "") "b.txt").1)] /\
    addChanges (exampleWorld exampleStatus "") exampleStatus =
      addChanges (without_read_errors (exampleWorld exampleStatus "")) exampleStatus /\
    (forall e,
       os_ReadFile (exampleWorld exampleStatus "") "b.txt" = ([], Some e) ->
       entries_for "b.txt" changes = [mkFileAddition "b.txt" ""]).
Proof.
  apply (changeset_entry (exampleWorld exampleStatus "") exampleStatus
           "b.txt" (mkFileStatus Added Deleted)).
  - intros m. reflexivity.
  - vm_compute. reflexivity.
  - reflexivity.
Defined.

(** The encoder on the contents of the example files. *)
Example EncodeToString_hi : EncodeToString (file_bytes "hi") = "aGk=".
Proof. reflexivity. Qed.

Example EncodeToString_empty : EncodeToString [] = "".
Proof. reflexivity. Qed.

Example EncodeToString_one_byte :
  EncodeToString [Byte.xff] = "/w==".
Proof. reflexivity. Qed.

Example EncodeToString_two_bytes :
  EncodeToString [Byte.xff; Byte.xfe] = "//4=".
Proof. reflexivity. Qed.

Example EncodeToString_three_bytes :
  EncodeToString [Byte.xfb; Byte.xff; Byte.xbe] = "+/++".
Proof. reflexivity. Qed.

Example EncodeToString_hello :
  EncodeToString (file_bytes "hello world") = "aGVsbG8gd29ybGQ=".
Proof. reflexivity. Qed.

Example addChanges_example :
  result (addChanges (exampleWorld exampleStatus "") exampleStatus) =
  Ret [mkFileAddition "a.txt" "aGk="; mkFileAddition "b.txt" ""].
Proof. vm_compute. reflexivity. Qed.

(** C2. When no path of the working-tree status qualifies, the run ends in
    the Change Collector with exit code 0 and has made no remote call. *)
Theorem nothing_to_commit (w : World) (opts : Opts) (repo : Repository)
  (status : Status) :
  range_visits_all w ->
  git_PlainOpen w = OK repo ->
  repo_Worktree w = OK tt ->
  worktree_Status w = OK status ->
  (forall name st, status !! name = Some st -> qualifies st = false) ->
  result (main w (ParseOk opts)) = Exit 0 /\
  remote_calls (trace (main w (ParseOk opts))) = [] /\
  trace (main w (ParseOk opts)) = [EvLog "no changes to commit, exiting"].
Proof.
  intros Hall Hopen Htree Hstatus Hnone.
  assert (Hsel : selected (range_Status w status) = []).
  { destruct (selected (range_Status w status)) as [|[n s] l] eqn:E; [done|].
    assert (Hin : (n, s) ∈ selected (range_Status w status))
      by (rewrite E; apply elem_of_cons; by left).
    apply selected_elem in Hin as [Hq Hin].
    apply (range_elem w status n s Hall) in Hin.
    rewrite (Hnone n s Hin) in Hq. discriminate. }
  assert (Hmain : main w (ParseOk opts)
                  = ([EvLog "no changes to commit, exiting"], Exit 0)).
  { unfold main, openRepository. rewrite Hopen, Htree, Hstatus. simpl.
    rewrite addChanges_eq, Hsel. reflexivity. }
  rewrite Hmain. by repeat split.
Qed.

Lemma nothing_to_commit_witness :
  result (main (exampleWorld deletedStatus "") (ParseOk exampleOpts)) = Exit 0 /\
  remote_calls (trace (main (exampleWorld deletedStatus "") (ParseOk exampleOpts))) = [] /\
  trace (main (exampleWorld deletedStatus "") (ParseOk exampleOpts))
    = [EvLog "no changes to commit, exiting"].
Proof.
  apply (nothing_to_commit (exampleWorld deletedStatus "") exampleOpts
           exampleRepository deletedStatus).
  - intros m. reflexivity.
  - reflexivity.
  - reflexivity.
  - reflexivity.
  - intros name st H.
    assert (Hin : (name, st) ∈ map_to_list deletedStatus)
      by by apply elem_of_map_to_list.
    vm_compute in Hin.
    repeat (apply elem_of_cons in Hin as [Hin|Hin];
            [inversion Hin; reflexivity|]).
    by apply elem_of_nil in Hin.
Defined.

(** ** The GraphQL operations *)

Lemma Split_no_slash (s : string) :
  has_slash s = false -> Split_slash s = [s].
Proof.
  induction s as [|c r IH]; simpl; [done|].
  destruct (Ascii.eqb c slash); simpl; [discriminate|].
  intros Hr. by rewrite (IH Hr).
Qed.

Lemma Split_one_slash (a b : string) :
  has_slash a = false -> has_slash b = false ->
  Split_slash (a +:+ String slash b) = [a; b].
Proof.
  intros Ha Hb. induction a as [|c r IH]; simpl.
  - by rewrite (Split_no_slash b Hb).
  - simpl in Ha. destruct (Ascii.eqb c slash); simpl in *; [discriminate|].
    by rewrite (IH Ha).
Qed.

(** C7. A repository identifier without the separator makes the resolution
    step panic with an index out of range, before any query and without a
    diagnostic line; with exactly one separator, owner and name are the
    texts before and after it, in the query of the resolver and in the
    query of the branch-existence check alike. *)
Theorem repository_identifier_split (w : World) (opts : Opts) :
  (has_slash (Repository_ opts) = false ->
   getMainOid w opts = ([], Panic (IndexOutOfRange 1 1)) /\
   CheckBranchExists w opts = ([], Panic (IndexOutOfRange 1 1))) /\
  (forall owner name,
     has_slash owner = false -> has_slash name = false ->
     Repository_ opts = owner +:+ String slash name ->
     Split_slash (Repository_ opts) = [owner; name] /\
     trace (getMainOid w opts) = [EvQuery (QueryMainOid (mainVariables owner name))] /\
     mainVariables owner name !! "owner" = Some owner /\
     mainVariables owner name !! "name" = Some name /\
     queries (trace (CheckBranchExists w opts))
       = [QueryRefName (branchVariables owner name (BranchName opts))] /\
     branchVariables owner name (BranchName opts) !! "owner" = Some owner /\
     branchVariables owner name (BranchName opts) !! "name" = Some name).
Proof.
  split.
  - intros Hno. unfold getMainOid, CheckBranchExists.
    rewrite (Split_no_slash _ Hno). by split.
  - intros owner name Ho Hn Heq.
    assert (Hsplit : Split_slash (Repository_ opts) = [owner; name])
      by (rewrite Heq; by apply Split_one_slash).
    split; [done|]. split; [|split; [|split; [|split; [|split]]]].
    + unfold getMainOid. rewrite Hsplit. simpl.
      by destruct (Query_MainOid w (mainVariables owner name)) as [[oid id]|e].
    + unfold mainVariables. by rewrite lookup_insert_eq.
    + unfold mainVariables.
      rewrite lookup_insert_ne by done. by rewrite lookup_insert_eq.
    + unfold CheckBranchExists. rewrite Hsplit. simpl.
      destruct (Query_RefName w (branchVariables owner name (BranchName opts)))
        as [refName|e]; simpl; [|done].
      by destruct (negb (refName =? "")).
    + unfold branchVariables. by rewrite lookup_insert_eq.
    + unfold branchVariables.
      rewrite lookup_insert_ne by done. by rewrite lookup_insert_eq.
Qed.

Lemma repository_identifier_split_witness :
  (getMainOid (exampleWorld exampleStatus "")
     (mkOpts "orgrepo" "feature-x" "msg" false)
   = ([], Panic (IndexOutOfRange 1 1)) /\
   CheckBranchExists (exampleWorld exampleStatus "")
     (mkOpts "orgrepo" "feature-x" "msg" false)
   = ([], Panic (IndexOutOfRange 1 1))) /\
  (Split_slash (Repository_ exampleOpts) = ["org"; "repo"] /\
   trace (getMainOid (exampleWorld exampleStatus "") exampleOpts)
   = [EvQuery (QueryMainOid (mainVariables "org" "repo"))] /\
   mainVariables "org" "repo" !! "owner" = Some "org" /\
   mainVariables "org" "repo" !! "name" = Some "repo" /\
   queries (trace (CheckBranchExists (exampleWorld exampleStatus "") exampleOpts))
   = [QueryRefName (branchVariables "org" "repo" (BranchName exampleOpts))] /\
   branchVariables "org" "repo" (BranchName exampleOpts) !! "owner" = Some "org" /\
   branchVariables "org" "repo" (BranchName exampleOpts) !! "name" = Some "repo").
Proof.
  split.
  - apply (proj1 (repository_identifier_split (exampleWorld exampleStatus "")
                    (mkOpts "orgrepo" "feature-x" "msg" false))).
    reflexivity.
  - apply (proj2 (repository_identifier_split (exampleWorld exampleStatus "")
                    exampleOpts) "org" "repo"); reflexivity.
Defined.

(** On such an identifier a run with changes to commit ends in the panic,
    having made no remote call. *)
Lemma main_malformed_repository (w : World) (opts : Opts) (repo : Repository)
  (status : Status) (changes : list FileAddition) :
  has_slash (Repository_ opts) = false ->
  git_PlainOpen w = OK repo ->
  repo_Worktree w = OK tt ->
  worktree_Status w = OK status ->
  result (addChanges w status) = Ret changes ->
  result (main w (ParseOk opts)) = Panic (IndexOutOfRange 1 1) /\
  trace (main w (ParseOk opts)) = trace (addChanges w status).
Proof.
  intros Hno Hopen Htree Hstatus Hadd.
  unfold main, openRepository. rewrite Hopen, Htree, Hstatus. simpl.
  destruct (addChanges w status) as [ta r]; simpl in *; subst r.
  unfold commitAndPullRequest, getMainOid.
  rewrite (Split_no_slash _ Hno). simpl. by rewrite app_nil_r.
Qed.

(** C4. The branch-existence check returns true exactly when the query for
    refs/heads/<branch> succeeds with a non-empty ref name; it returns false
    together with the error when the query errors, and false when the ref
    name is empty. *)
Theorem branch_exists_check (w : World) (opts : Opts) :
  (result (CheckBranchExists w opts) = Ret (true, None) <->
   exists owner name rest refName,
     Split_slash (Repository_ opts) = owner :: name :: rest /\
     Query_RefName w (branchVariables owner name (BranchName opts)) = OK refName /\
     refName <> "") /\
  (forall e, result (CheckBranchExists w opts) <> Ret (true, Some e)) /\
  (forall owner name rest,
     Split_slash (Repository_ opts) = owner :: name :: rest ->
     branchVariables owner name (BranchName opts) !! "branchName"
       = Some ("refs/heads/" +:+ BranchName opts) /\
     (forall e,
        Query_RefName w (branchVariables owner name (BranchName opts)) = Err e ->
        result (CheckBranchExists w opts) = Ret (false, Some e)) /\
     (Query_RefName w (branchVariables owner name (BranchName opts)) = OK "" ->
      result (CheckBranchExists w opts) = Ret (false, None))).
Proof.
  unfold CheckBranchExists.
  destruct (Split_slash (Repository_ opts)) as [|owner [|name rest]] eqn:Hsplit;
    simpl.
  - split; [split|split].
    + discriminate.
    + intros (?&?&?&?&?&?); discriminate.
    + discriminate.
    + discriminate.
  - split; [split|split].
    + discriminate.
    + intros (?&?&?&?&?&?); discriminate.
    + discriminate.
    + discriminate.
  - destruct (Query_RefName w (branchVariables owner name (BranchName opts)))
      as [refName|e] eqn:Hq; simpl.
    + destruct (String.eqb_spec refName "") as [->|Hne]; simpl.
      * split; [split|split].
        -- discriminate.
        -- intros (o&n&r&rn&Heq&Hq'&Hne). inversion Heq; subst o n r.
           rewrite Hq in Hq'. inversion Hq'; subst rn. done.
        -- discriminate.
        -- intros o n r Heq. inversion Heq; subst o n r.
           split; [|split].
           ++ unfold branchVariables.
              rewrite lookup_insert_ne by done. rewrite lookup_insert_ne by done.
              by rewrite lookup_insert_eq.
           ++ intros e He. rewrite Hq in He. discriminate.
           ++ reflexivity.
      * split; [split|split].
        -- intros _. by exists owner, name, rest, refName.
        -- reflexivity.
        -- discriminate.
        -- intros o n r Heq. inversion Heq; subst o n r.
           split; [|split].
           ++ unfold branchVariables.
              rewrite lookup_insert_ne by done. rewrite lookup_insert_ne by done.
              by rewrite lookup_insert_eq.
           ++ intros e He. rewrite Hq in He. discriminate.
           ++ intros He. rewrite Hq in He. inversion He. by subst refName.
    + split; [split|split].
      * discriminate.
      * intros (o&n&r&rn&Heq&Hq'&Hne). inversion Heq; subst o n r.
        rewrite Hq in Hq'. discriminate.
      * discriminate.
      * intros o n r Heq. inversion Heq; subst o n r.
        split; [|split].
        -- unfold branchVariables.
           rewrite lookup_insert_ne by done. rewrite lookup_insert_ne by done.
           by rewrite lookup_insert_eq.
        -- intros e' He. rewrite Hq in He. inversion He. reflexivity.
        -- intros He. rewrite Hq in He. discriminate.
Qed.

(** The check on a branch the remote knows, and on one it does not. *)
Example CheckBranchExists_found :
  result (CheckBranchExists (exampleWorld exampleStatus "feature-x") exampleOpts)
  = Ret (true, None).
Proof. reflexivity. Qed.

Example CheckBranchExists_unknown :
  result (CheckBranchExists (exampleWorld exampleStatus "") exampleOpts)
  = Ret (false, None).
Proof. reflexivity. Qed.

(** ** Runs of [main] *)

Lemma commit_requests_app (t1 t2 : list Event) :
  commit_requests (t1 ++ t2) = (commit_requests t1 ++ commit_requests t2)%list.
Proof. apply omap_app. Qed.

Lemma createRef_requests_app (t1 t2 : list Event) :
  createRef_requests (t1 ++ t2)
  = (createRef_requests t1 ++ createRef_requests t2)%list.
Proof. apply omap_app. Qed.

Lemma pullRequest_requests_app (t1 t2 : list Event) :
  pullRequest_requests (t1 ++ t2)
  = (pullRequest_requests t1 ++ pullRequest_requests t2)%list.
Proof. apply omap_app. Qed.

(** The Change Collector only writes log lines. *)
Lemma addChanges_requests (w : World) (status : Status) :
  commit_requests (trace (addChanges w status)) = [] /\
  createRef_requests (trace (addChanges w status)) = [] /\
  pullRequest_requests (trace (addChanges w status)) = [] /\
  remote_calls (trace (addChanges w status)) = [].
Proof.
  assert (Hlogs : exists lines, trace (addChanges w status) = EvLog <$> lines).
  { rewrite addChanges_eq. simpl.
    destruct (selected (range_Status w status)) as [|e sel] eqn:E.
    - by exists ["no changes to commit, exiting"].
    - exists ((fun entry => "adding " +:+ entry.1) <$> (e :: sel)).
      simpl. by rewrite <- list_fmap_compose. }
  destruct Hlogs as [lines ->].
  repeat split; induction lines; done.
Qed.

#[local] Arguments String.append : simpl never.

(** Case analysis on the next answer of the world a run depends on. *)
Ltac world_case :=
  match goal with
  | |- context [Query_MainOid ?w ?v] =>
      destruct (Query_MainOid w v) as [[? ?]|?] eqn:?
  | |- context [Query_RefName ?w ?v] =>
      destruct (Query_RefName w v) as [?|?] eqn:?
  | |- context [String.eqb ?r ""] =>
      destruct (String.eqb_spec r "")
  | |- context [Mutate_CreateRef ?w ?i] =>
      destruct (Mutate_CreateRef w i) as [?|] eqn:?
  | |- context [repo_HEAD ?r] =>
      destruct (repo_HEAD r) as [?|?] eqn:?
  | |- context [bool_decide (?x ∈ repo_remotes ?r)] =>
      destruct (bool_decide (x ∈ repo_remotes r)) eqn:?
  | |- context [remote_Fetch ?w ?r] =>
      destruct (remote_Fetch w r) as [? [?|]] eqn:?
  | |- context [repo_refs ?r !! ?n] =>
      destruct (repo_refs r !! n) as [?|] eqn:?
  | |- context [Mutate_CreateCommitOnBranch ?w ?i] =>
      destruct (Mutate_CreateCommitOnBranch w i) as [?|?] eqn:?
  | |- context [Mutate_CreatePullRequest ?w ?i] =>
      destruct (Mutate_CreatePullRequest w i) as [?|] eqn:?
  end; simpl.

Ltac unfold_run :=
  unfold commitAndPullRequest, getMainOid, CheckBranchExists, resolveRevision,
    DoCommit, CreateBranch, CreatePullRequest, fetchRemote, repo_Remote,
    repo_Head, repo_Reference, createRefInput, commitInput, pullRequestInput;
  simpl.

Ltac requests_app :=
  rewrite ?commit_requests_app, ?createRef_requests_app,
    ?pullRequest_requests_app.

(** Setting the pull-request option changes no commit request of a run. *)
Lemma main_commit_requests_flag (w : World) (opts : Opts) (b : bool) :
  commit_requests (trace (main w (ParseOk (with_PullRequest b opts)))) =
  commit_requests (trace (main w (ParseOk opts))).
Proof.
  unfold main, openRepository. simpl.
  destruct (git_PlainOpen w) as [repo|e]; simpl; [|done].
  destruct (repo_Worktree w) as [[]|e]; simpl; [|done].
  destruct (worktree_Status w) as [status|e]; simpl; [|done].
  destruct (addChanges w status) as [ta [changes|c|e]]; simpl; try done.
  unfold_run.
  destruct (Split_slash (Repository_ opts)) as [|owner [|name rest]];
    simpl; try done.
  repeat world_case; try done.
  all: destruct b, (PullRequest opts); simpl.
  all: repeat world_case.
  all: requests_app; done.
Qed.

(** C10. Two runs that differ only in the pull-request option build the same
    commit mutation input and submit the same commit requests. *)
Theorem commit_independent_of_pull_request (w : World) (opts1 opts2 : Opts)
  (changes : list FileAddition) (revision : Reference) :
  Repository_ opts1 = Repository_ opts2 ->
  BranchName opts1 = BranchName opts2 ->
  Message opts1 = Message opts2 ->
  commitInput changes opts1 revision = commitInput changes opts2 revision /\
  DoCommit w changes opts1 (Some revision) = DoCommit w changes opts2 (Some revision) /\
  commit_requests (trace (main w (ParseOk opts1))) =
  commit_requests (trace (main w (ParseOk opts2))).
Proof.
  intros Hr Hb Hm.
  assert (Heq : opts1 = with_PullRequest (PullRequest opts1) opts2).
  { destruct opts1, opts2; simpl in *; by subst. }
  split; [|split].
  - unfold commitInput. by rewrite Hr, Hb, Hm.
  - unfold DoCommit, commitInput. by rewrite Hr, Hb, Hm.
  - rewrite Heq at 1. apply main_commit_requests_flag.
Qed.

Lemma commit_independent_of_pull_request_witness :
  commitInput [mkFileAddition "a.txt" "aGk="] exampleOpts
    (mkReference "refs/heads/main" "1111")
  = commitInput [mkFileAddition "a.txt" "aGk="] (with_PullRequest false exampleOpts)
      (mkReference "refs/heads/main" "1111") /\
  DoCommit (exampleWorld exampleStatus "") [mkFileAddition "a.txt" "aGk="]
    exampleOpts (Some (mkReference "refs/heads/main" "1111"))
  = DoCommit (exampleWorld exampleStatus "") [mkFileAddition "a.txt" "aGk="]
      (with_PullRequest false exampleOpts)
      (Some (mkReference "refs/heads/main" "1111")) /\
  commit_requests (trace (main (exampleWorld exampleStatus "") (ParseOk exampleOpts))) =
  commit_requests (trace (main (exampleWorld exampleStatus "")
                            (ParseOk (with_PullRequest false exampleOpts)))).
Proof.
  apply (commit_independent_of_pull_request (exampleWorld exampleStatus "")
           exampleOpts (with_PullRequest false exampleOpts));
    reflexivity.
Defined.

(** Recovering what a stage returned from the answers of the world. *)
Ltac stage_result Hsplit :=
  unfold CheckBranchExists, getMainOid; rewrite Hsplit; simpl;
  repeat match goal with
         | H : Query_MainOid _ _ = _ |- _ => rewrite H; clear H; simpl
         | H : Query_RefName _ _ = _ |- _ => rewrite H; clear H; simpl
         end;
  try match goal with
      | |- context [String.eqb ?r ""] => destruct (String.eqb_spec r "")
      end;
  simpl; try done.

Ltac no_request :=
  let Hin := fresh "Hin" in
  intros Hin; by apply elem_of_nil in Hin.

(** C9. A branch-creation mutation appears in a run only after the
    branch-existence check returned false; it names refs/heads/<branch> and
    points it at the default-branch tip the resolver returned; when the
    mutation fails the run is aborted and submits no commit. *)
Theorem branch_creation (w : World) (opts : Opts) (i : CreateRefInput) :
  i ∈ createRef_requests (trace (main w (ParseOk opts))) ->
  exists oid repoId,
    result (CheckBranchExists w opts) = Ret (false, None) /\
    result (getMainOid w opts) = Ret (oid, repoId, None) /\
    CR_Name i = "refs/heads/" +:+ BranchName opts /\
    CR_Oid i = oid /\
    CR_RepositoryID i = repoId /\
    (forall e, Mutate_CreateRef w i = Some e ->
       result (main w (ParseOk opts)) = Exit 1 /\
       last (trace (main w (ParseOk opts)))
         = Some (EvLog ("unable to create branch: " +:+ e)) /\
       commit_requests (trace (main w (ParseOk opts))) = []).
Proof.
  remember (result (CheckBranchExists w opts)) as rcheck eqn:Hcheck.
  remember (result (getMainOid w opts)) as rmain eqn:Hmain.
  unfold main, openRepository. simpl.
  destruct (git_PlainOpen w) as [repo|e]; simpl; [|no_request].
  destruct (repo_Worktree w) as [[]|e]; simpl; [|no_request].
  destruct (worktree_Status w) as [status|e]; simpl; [|no_request].
  destruct (addChanges_requests w status) as (Hc & Hr & Hp & _).
  destruct (addChanges w status) as [ta [changes|c|e]]; simpl in *;
    try (rewrite Hr; no_request).
  unfold_run.
  destruct (Split_slash (Repository_ opts)) as [|owner [|name rest]] eqn:Hsplit;
    simpl; try (rewrite Hr; no_request).
  repeat world_case.
  all: destruct (PullRequest opts); simpl.
  all: repeat world_case.
  all: requests_app; rewrite ?Hr, ?Hc; simpl.
  all: try no_request.
  all: intros Hin; apply list_elem_of_singleton in Hin; subst i rcheck rmain.
  all: eexists _, _; repeat split.
  all: try (stage_result Hsplit; fail).
  all: try congruence.
  all: rewrite last_app; simpl; congruence.
Qed.

(** C1 (amended). When the target branch does not exist, the Branch Creator
    is invoked with the default-branch tip the resolver returned, and every
    commit request of the run expects the head to be the hash of the local
    repository's HEAD revision. *)
Theorem new_branch_expected_head (w : World) (opts : Opts) (repo : Repository)
  (changes : list FileAddition) (oid repoId : string) :
  reaches_resolution w opts repo changes oid repoId false ->
  createRef_requests (trace (main w (ParseOk opts)))
    = [createRefInput opts repoId oid] /\
  CR_Oid (createRefInput opts repoId oid) = oid /\
  (forall i, i ∈ commit_requests (trace (main w (ParseOk opts))) ->
     exists head, repo_HEAD repo = OK head /\
       ExpectedHeadOid i = Hash_String (ref_Hash head)) /\
  (Mutate_CreateRef w (createRefInput opts repoId oid) = None ->
   forall head, repo_HEAD repo = OK head ->
     commit_requests (trace (main w (ParseOk opts)))
       = [commitInput changes opts head]).
Proof.
  intros (Hopen & Htree & (status & Hstatus & Hadd) & Hmain & Hcheck).
  revert Hmain Hcheck.
  unfold main, openRepository. rewrite Hopen, Htree, Hstatus. simpl.
  destruct (addChanges_requests w status) as (Hc & Hr & Hp & _).
  destruct (addChanges w status) as [ta r]; simpl in *; subst r.
  unfold_run.
  destruct (Split_slash (Repository_ opts)) as [|owner [|name rest]] eqn:Hsplit;
    simpl; try discriminate.
  repeat world_case.
  all: destruct (PullRequest opts); simpl.
  all: repeat world_case.
  all: intros Hmain Hcheck; try discriminate.
  all: inversion Hmain; inversion Hcheck; subst.
  all: requests_app; rewrite ?Hr, ?Hc; simpl.
  all: repeat split; try done.
  all: try (intros i Hin; by apply elem_of_nil in Hin).
  all: try (intros i Hin; apply list_elem_of_singleton in Hin; subst i;
            eexists; split; reflexivity).
  all: try (intros _ head Hhead; inversion Hhead; reflexivity).
  all: congruence.
Qed.

Ltac find_event :=
  apply elem_of_app; right;
  repeat first [ apply list_elem_of_here | apply list_elem_of_further ].

(** C5. When the target branch exists, the run fetches from origin when
    that remote is configured; an error of the fetch, or the missing remote,
    is written to the log and the run goes on with the local tracking
    reference refs/remotes/origin/<branch> of the repository as the fetch
    left it; the commit expects the hash that reference resolves to, and the
    step is fatal only when the reference cannot be resolved. *)
Theorem existing_branch_expected_head (w : World) (opts : Opts)
  (repo : Repository) (changes : list FileAddition) (oid repoId : string) :
  reaches_resolution w opts repo changes oid repoId true ->
  let fetched :=
    if bool_decide ("origin" ∈ repo_remotes repo) then remote_Fetch w repo
    else (repo, Some "remote not found") in
  result (fetchRemote w repo) = Ret fetched /\
  fetches (trace (main w (ParseOk opts)))
    = (if bool_decide ("origin" ∈ repo_remotes repo) then ["origin"] else []) /\
  (forall e, fetched.2 = Some e ->
     EvLog ("unable to fetch remote: " +:+ e) ∈ trace (main w (ParseOk opts))) /\
  createRef_requests (trace (main w (ParseOk opts))) = [] /\
  match repo_refs fetched.1 !! ("refs/remotes/origin/" +:+ BranchName opts) with
  | Some r =>
      result (resolveRevision w opts (Some repo) repoId oid true) = Ret (Some r) /\
      commit_requests (trace (main w (ParseOk opts))) = [commitInput changes opts r] /\
      ExpectedHeadOid (commitInput changes opts r) = Hash_String (ref_Hash r)
  | None =>
      result (resolveRevision w opts (Some repo) repoId oid true) = Exit 1 /\
      result (main w (ParseOk opts)) = Exit 1 /\
      commit_requests (trace (main w (ParseOk opts))) = []
  end.
Proof.
  intros (Hopen & Htree & (status & Hstatus & Hadd) & Hmain & Hcheck).
  revert Hmain Hcheck.
  unfold main, openRepository. rewrite Hopen, Htree, Hstatus. simpl.
  destruct (addChanges_requests w status) as (Hc & Hr & Hp & _).
  assert (Hf : fetches (trace (addChanges w status)) = []).
  { rewrite addChanges_eq. simpl.
    destruct (selected (range_Status w status)) as [|e sel]; [done|].
    generalize (e :: sel). intros l. by induction l. }
  destruct (addChanges w status) as [ta r]; simpl in *; subst r.
  unfold_run.
  destruct (Split_slash (Repository_ opts)) as [|owner [|name rest]] eqn:Hsplit;
    simpl; try discriminate.
  repeat world_case.
  all: destruct (PullRequest opts); simpl.
  all: repeat world_case.
  all: intros Hmain Hcheck; try discriminate.
  all: inversion Hmain; inversion Hcheck; subst.
  all: repeat match goal with
              | H : repo_refs _ !! _ = _ |- _ => rewrite H; clear H
              end.
  all: unfold fetches; rewrite ?omap_app; fold (fetches ta); rewrite ?Hf.
  all: requests_app; rewrite ?Hr, ?Hc; simpl.
  all: repeat split; try done.
  all: try (intros e' He'; inversion He'; subst; find_event).
Qed.

Ltac close_requests :=
  repeat split; intros;
  repeat match goal with
         | H : _ ∈ [] |- _ => by apply elem_of_nil in H
         | H : _ ∈ [_] |- _ => apply list_elem_of_singleton in H; subst
         end;
  simpl; try done; try congruence; try (by eexists).

(** C6. A pull-request mutation appears in a run only when the pull-request
    option is set, and then has base "main", the target branch as head and
    the commit message as title; once the commit has been submitted
    successfully, the mutation is issued exactly when the option is set. *)
Theorem pull_request_opening (w : World) (opts : Opts) :
  (forall i, i ∈ pullRequest_requests (trace (main w (ParseOk opts))) ->
     PullRequest opts = true /\
     BaseRefName i = "main" /\
     HeadRefName i = BranchName opts /\
     Title i = Message opts) /\
  (forall c url,
     c ∈ commit_requests (trace (main w (ParseOk opts))) ->
     Mutate_CreateCommitOnBranch w c = OK url ->
     PullRequest opts = true ->
     exists i, pullRequest_requests (trace (main w (ParseOk opts))) = [i]) /\
  (PullRequest opts = false ->
   pullRequest_requests (trace (main w (ParseOk opts))) = []).
Proof.
  unfold main, openRepository. simpl.
  destruct (git_PlainOpen w) as [repo|e]; simpl; [|by close_requests].
  destruct (repo_Worktree w) as [[]|e]; simpl; [|by close_requests].
  destruct (worktree_Status w) as [status|e]; simpl; [|by close_requests].
  destruct (addChanges_requests w status) as (Hc & Hr & Hp & _).
  destruct (addChanges w status) as [ta [changes|c|e]]; simpl in *;
    try (rewrite Hp, Hc; by close_requests).
  unfold_run.
  destruct (Split_slash (Repository_ opts)) as [|owner [|name rest]] eqn:Hsplit;
    simpl; try (rewrite Hp, Hc; by close_requests).
  repeat world_case.
  all: destruct (PullRequest opts) eqn:Hflag; simpl.
  all: repeat world_case.
  all: requests_app; rewrite ?Hp, ?Hc; simpl.
  all: close_requests.
Qed.

(** ** The runs on the example worlds *)

Lemma newBranchWorld_reaches :
  reaches_resolution newBranchWorld exampleOpts exampleRepository
    exampleChanges "9999" "R_1" false.
Proof.
  split; [reflexivity|]. split; [reflexivity|]. split.
  - exists exampleStatus. split; [reflexivity|]. vm_compute. reflexivity.
  - split; reflexivity.
Qed.

Lemma staleBranchWorld_reaches :
  reaches_resolution staleBranchWorld exampleOpts exampleRepository
    exampleChanges "9999" "R_1" true.
Proof.
  split; [reflexivity|]. split; [reflexivity|]. split.
  - exists exampleStatus. split; [reflexivity|]. vm_compute. reflexivity.
  - split; reflexivity.
Qed.

Example newBranchWorld_requests :
  CR_Oid <$> createRef_requests (trace (main newBranchWorld (ParseOk exampleOpts)))
    = ["9999"] /\
  ExpectedHeadOid <$> commit_requests (trace (main newBranchWorld (ParseOk exampleOpts)))
    = ["1111"].
Proof. split; vm_compute; reflexivity. Qed.

Example staleBranchWorld_requests :
  createRef_requests (trace (main staleBranchWorld (ParseOk exampleOpts))) = [] /\
  ExpectedHeadOid <$> commit_requests (trace (main staleBranchWorld (ParseOk exampleOpts)))
    = ["2222"] /\
  result (main staleBranchWorld (ParseOk exampleOpts)) = Ret tt.
Proof. repeat split; vm_compute; reflexivity. Qed.

Example refusedBranchWorld_run :
  result (main refusedBranchWorld (ParseOk exampleOpts)) = Exit 1 /\
  commit_requests (trace (main refusedBranchWorld (ParseOk exampleOpts))) = [] /\
  last (trace (main refusedBranchWorld (ParseOk exampleOpts)))
    = Some (EvLog "unable to create branch: permission denied").
Proof. repeat split; vm_compute; reflexivity. Qed.

(** C1, as stated, fails: on [newBranchWorld] the branch does not exist, the
    resolver returns the tip 9999, and the commit request expects 1111, the
    hash of the local HEAD. *)
Lemma expected_head_is_not_default_tip :
  ~ (forall repo changes oid repoId,
       reaches_resolution newBranchWorld exampleOpts repo changes oid repoId false ->
       forall i,
         i ∈ commit_requests (trace (main newBranchWorld (ParseOk exampleOpts))) ->
         ExpectedHeadOid i = oid).
Proof.
  intros H.
  specialize (H exampleRepository exampleChanges "9999" "R_1"
                newBranchWorld_reaches
                (commitInput exampleChanges exampleOpts
                   (mkReference "refs/heads/main" "1111"))).
  assert (Hin : commitInput exampleChanges exampleOpts
                  (mkReference "refs/heads/main" "1111")
                ∈ commit_requests (trace (main newBranchWorld (ParseOk exampleOpts)))).
  { vm_compute. apply list_elem_of_here. }
  specialize (H Hin). discriminate H.
Qed.

Lemma new_branch_expected_head_witness :
  createRef_requests (trace (main newBranchWorld (ParseOk exampleOpts)))
    = [createRefInput exampleOpts "R_1" "9999"] /\
  CR_Oid (createRefInput exampleOpts "R_1" "9999") = "9999" /\
  (forall i, i ∈ commit_requests (trace (main newBranchWorld (ParseOk exampleOpts))) ->
     exists head, repo_HEAD exampleRepository = OK head /\
       ExpectedHeadOid i = Hash_String (ref_Hash head)) /\
  (Mutate_CreateRef newBranchWorld (createRefInput exampleOpts "R_1" "9999") = None ->
   forall head, repo_HEAD exampleRepository = OK head ->
     commit_requests (trace (main newBranchWorld (ParseOk exampleOpts)))
       = [commitInput exampleChanges exampleOpts head]).
Proof.
  apply (new_branch_expected_head newBranchWorld exampleOpts exampleRepository
           exampleChanges "9999" "R_1").
  split; [reflexivity|]. split; [reflexivity|]. split.
  - exists exampleStatus. split; [reflexivity|]. vm_compute. reflexivity.
  - split; reflexivity.
Defined.

Lemma existing_branch_expected_head_witness :
  let fetched :=
    if bool_decide ("origin" ∈ repo_remotes exampleRepository)
    then remote_Fetch staleBranchWorld exampleRepository
    else (exampleRepository, Some "remote not found") in
  result (fetchRemote staleBranchWorld exampleRepository) = Ret fetched /\
  fetches (trace (main staleBranchWorld (ParseOk exampleOpts)))
    = (if bool_decide ("origin" ∈ repo_remotes exampleRepository)
       then ["origin"] else []) /\
  (forall e, fetched.2 = Some e ->
     EvLog ("unable to fetch remote: " +:+ e)
     ∈ trace (main staleBranchWorld (ParseOk exampleOpts))) /\
  createRef_requests (trace (main staleBranchWorld (ParseOk exampleOpts))) = [] /\
  match repo_refs fetched.1
          !! ("refs/remotes/origin/" +:+ BranchName exampleOpts) with
  | Some r =>
      result (resolveRevision staleBranchWorld exampleOpts
                (Some exampleRepository) "R_1" "9999" true) = Ret (Some r) /\
      commit_requests (trace (main staleBranchWorld (ParseOk exampleOpts)))
        = [commitInput exampleChanges exampleOpts r] /\
      ExpectedHeadOid (commitInput exampleChanges exampleOpts r)
        = Hash_String (ref_Hash r)
  | None =>
      result (resolveRevision staleBranchWorld exampleOpts
                (Some exampleRepository) "R_1" "9999" true) = Exit 1 /\
      result (main staleBranchWorld (ParseOk exampleOpts)) = Exit 1 /\
      commit_requests (trace (main staleBranchWorld (ParseOk exampleOpts))) = []
  end.
Proof.
  apply (existing_branch_expected_head staleBranchWorld exampleOpts
           exampleRepository exampleChanges "9999" "R_1").
  split; [reflexivity|]. split; [reflexivity|]. split.
  - exists exampleStatus. split; [reflexivity|]. vm_compute. reflexivity.
  - split; reflexivity.
Defined.

(** On [staleBranchWorld] the fetch is attempted, fails, and its error is
    written before the run goes on to commit. *)
Example staleBranchWorld_fetch_logged :
  fetches (trace (main staleBranchWorld (ParseOk exampleOpts))) = ["origin"] /\
  EvLog "unable to fetch remote: authentication required"
  ∈ trace (main staleBranchWorld (ParseOk exampleOpts)).
Proof.
  split; vm_compute; [reflexivity|].
  repeat first [ apply list_elem_of_here | apply list_elem_of_further ].
Qed.

Lemma branch_creation_witness :
  exists oid repoId,
    result (CheckBranchExists newBranchWorld exampleOpts) = Ret (false, None) /\
    result (getMainOid newBranchWorld exampleOpts) = Ret (oid, repoId, None) /\
    CR_Name (createRefInput exampleOpts "R_1" "9999")
      = "refs/heads/" +:+ BranchName exampleOpts /\
    CR_Oid (createRefInput exampleOpts "R_1" "9999") = oid /\
    CR_RepositoryID (createRefInput exampleOpts "R_1" "9999") = repoId /\
    (forall e,
       Mutate_CreateRef newBranchWorld (createRefInput exampleOpts "R_1" "9999")
         = Some e ->
       result (main newBranchWorld (ParseOk exampleOpts)) = Exit 1 /\
       last (trace (main newBranchWorld (ParseOk exampleOpts)))
         = Some (EvLog ("unable to create branch: " +:+ e)) /\
       commit_requests (trace (main newBranchWorld (ParseOk exampleOpts))) = []).
Proof.
  apply (branch_creation newBranchWorld exampleOpts
           (createRefInput exampleOpts "R_1" "9999")).
  vm_compute. apply list_elem_of_here.
Defined.

Lemma pull_request_opening_witness :
  exists i,
    pullRequest_requests (trace (main newBranchWorld (ParseOk exampleOpts))) = [i] /\
    BaseRefName i = "main" /\
    HeadRefName i = "feature-x" /\
    Title i = "msg".
Proof.
  destruct (pull_request_opening newBranchWorld exampleOpts) as (Honly & Hif & _).
  destruct (Hif (commitInput exampleChanges exampleOpts
                   (mkReference "refs/heads/main" "1111"))
              "https://example/commit") as [i Hi].
  - vm_compute. apply list_elem_of_here.
  - reflexivity.
  - reflexivity.
  - exists i. split; [exact Hi|].
    destruct (Honly i) as (_ & Hbase & Hhead & Htitle).
    + rewrite Hi. apply list_elem_of_here.
    + by repeat split.
Defined.

(** * Further properties *)

(** ** Change Collector *)

(** X1. A ChangeSet returned by the Change Collector is never empty, names
    no path twice, and has one entry per qualifying path of the status. *)
Theorem changeset_shape (w : World) (status : Status)
  (changes : list FileAddition) :
  range_visits_all w ->
  result (addChanges w status) = Ret changes ->
  changes <> [] /\
  NoDup (Path <$> changes) /\
  length changes = length (selected (map_to_list status)).
Proof.
  intros Hall. rewrite addChanges_eq. simpl.
  destruct (selected (range_Status w status)) as [|e sel] eqn:Hsel;
    [discriminate|].
  intros Hret. rewrite <- Hsel in Hret. inversion Hret; subst changes.
  clear Hret. split; [by rewrite Hsel|]. split.
  - rewrite <- list_fmap_compose.
    assert (Hfst : forall l : list (string * FileStatus),
              (Path ∘ addition w) <$> l = l.*1).
    { intros l. by apply list_fmap_ext. }
    rewrite Hfst. unfold selected.
    assert (Hsub : forall l : list (string * FileStatus),
              NoDup l.*1 -> NoDup (filter (fun entry => qualifies entry.2) l).*1).
    { induction l as [|[n s] l IH]; [done|].
      rewrite fmap_cons, filter_cons. simpl. intros Hnd.
      apply NoDup_cons in Hnd as [Hfresh Hnd].
      destruct (qualifies s); simpl; [|by apply IH].
      apply NoDup_cons. split; [|by apply IH].
      intros Hin. apply Hfresh. apply list_elem_of_fmap in Hin as [[n' s'] [-> Hin]].
      apply list_elem_of_filter in Hin as [_ Hin].
      apply list_elem_of_fmap. by exists (n', s'). }
    apply Hsub. by apply range_NoDup.
  - rewrite length_fmap. apply Permutation_length. unfold selected.
    by rewrite (Hall status).
Qed.

Lemma changeset_shape_witness :
  exampleChanges <> [] /\
  NoDup (Path <$> exampleChanges) /\
  length exampleChanges = length (selected (map_to_list exampleStatus)).
Proof.
  apply (changeset_shape newBranchWorld exampleStatus exampleChanges).
  - intros m. reflexivity.
  - vm_compute. reflexivity.
Defined.

(** X2. When the Change Collector returns, it has written exactly one line
    "adding <path>" per entry of the ChangeSet, in the order of the entries,
    and nothing else. *)
Theorem changeset_log_lines (w : World) (status : Status)
  (changes : list FileAddition) :
  result (addChanges w status) = Ret changes ->
  trace (addChanges w status)
  = (fun c => EvLog ("adding " +:+ Path c)) <$> changes.
Proof.
  rewrite addChanges_eq. simpl.
  destruct (selected (range_Status w status)) as [|e sel]; [discriminate|].
  intros Hret. inversion Hret; subst changes. simpl.
  f_equal. rewrite <- list_fmap_compose. by apply list_fmap_ext.
Qed.

Lemma changeset_log_lines_witness :
  trace (addChanges newBranchWorld exampleStatus)
  = (fun c => EvLog ("adding " +:+ Path c)) <$> exampleChanges.
Proof.
  apply (changeset_log_lines newBranchWorld exampleStatus exampleChanges).
  vm_compute. reflexivity.
Defined.

(** X3. The order in which [range] visits the status map changes the
    ChangeSet only by a permutation: two worlds that read the same files
    either both have nothing to commit or collect the same entries. *)
Theorem changeset_order_independent (w1 w2 : World) (status : Status) :
  range_visits_all w1 ->
  range_visits_all w2 ->
  (forall name, os_ReadFile w1 name = os_ReadFile w2 name) ->
  match result (addChanges w1 status), result (addChanges w2 status) with
  | Ret changes1, Ret changes2 => changes1 ≡ₚ changes2
  | Exit code1, Exit code2 => code1 = 0 /\ code2 = 0
  | _, _ => False
  end.
Proof.
  intros Hall1 Hall2 Hread.
  assert (Hperm : selected (range_Status w1 status)
                  ≡ₚ selected (range_Status w2 status)).
  { unfold selected. by rewrite (Hall1 status), (Hall2 status). }
  rewrite !addChanges_eq. simpl.
  destruct (selected (range_Status w1 status)) as [|e1 sel1] eqn:H1;
    destruct (selected (range_Status w2 status)) as [|e2 sel2] eqn:H2; simpl.
  - done.
  - by apply Permutation_nil_cons in Hperm.
  - symmetry in Hperm. by apply Permutation_nil_cons in Hperm.
  - assert (Hadd : forall l : list (string * FileStatus),
              addition w1 <$> l = addition w2 <$> l).
    { intros l. apply list_fmap_ext. intros i x _. unfold addition.
      by rewrite Hread. }
    change (addition w1 <$> (e1 :: sel1) ≡ₚ addition w2 <$> (e2 :: sel2)).
    rewrite Hadd. by apply fmap_Permutation.
Qed.

Lemma changeset_order_independent_witness :
  match result (addChanges newBranchWorld exampleStatus),
        result (addChanges (with_range (fun m => reverse (map_to_list m))
                              newBranchWorld) exampleStatus) with
  | Ret changes1, Ret changes2 => changes1 ≡ₚ changes2
  | Exit code1, Exit code2 => code1 = 0 /\ code2 = 0
  | _, _ => False
  end.
Proof.
  apply (changeset_order_independent newBranchWorld
           (with_range (fun m => reverse (map_to_list m)) newBranchWorld)
           exampleStatus).
  - intros m. reflexivity.
  - intros m. apply reverse_Permutation.
  - intros name. reflexivity.
Defined.

Example reversed_range_changes :
  result (addChanges (with_range (fun m => reverse (map_to_list m))
                        newBranchWorld) exampleStatus)
  = Ret (reverse exampleChanges).
Proof. vm_compute. reflexivity. Qed.

(** ** Splitting the repository identifier *)

Lemma Split_slash_nonempty (s : string) : Split_slash s <> [].
Proof.
  destruct s as [|c r]; simpl; [done|].
  destruct (Ascii.eqb c slash); [done|]. by destruct (Split_slash r).
Qed.

Lemma Split_has_slash (s : string) :
  has_slash s = true -> exists a b rest, Split_slash s = a :: b :: rest.
Proof.
  induction s as [|c r IH]; simpl; [discriminate|].
  destruct (Ascii.eqb c slash); simpl.
  - intros _. destruct (Split_slash r) as [|b rest] eqn:Hr.
    + by apply Split_slash_nonempty in Hr.
    + by exists "", b, rest.
  - intros Hr. destruct (IH Hr) as (a & b & rest & ->).
    by exists (String c a), b, rest.
Qed.

(** X4. [Split_slash] cuts an identifier at every separator and nowhere
    else: joining the pieces with the separator gives the identifier back,
    no piece holds a separator, and there is one piece more than there are
    separators. *)
Theorem Split_slash_pieces (s : string) :
  Join_slash (Split_slash s) = s /\
  Forall (fun piece => has_slash piece = false) (Split_slash s) /\
  length (Split_slash s) = S (count_slash s).
Proof.
  induction s as [|c r (IHjoin & IHall & IHlen)]; simpl.
  - repeat split. by constructor.
  - destruct (Ascii.eqb_spec c slash) as [->|Hc]; simpl.
    + repeat split.
      * destruct (Split_slash r) as [|p ps] eqn:Hr;
          [by apply Split_slash_nonempty in Hr|].
        by rewrite IHjoin.
      * by constructor.
      * by rewrite IHlen.
    + destruct (Split_slash r) as [|p ps] eqn:Hr;
        [by apply Split_slash_nonempty in Hr|].
      repeat split.
      * destruct ps; simpl in *; by rewrite <- IHjoin.
      * inversion IHall; subst. constructor; [|done].
        simpl. apply Ascii.eqb_neq in Hc. by rewrite Hc.
      * exact IHlen.
Qed.

(** X5. The two queries panic exactly on an identifier without separator,
    always with index 1 out of range for length 1; with a separator they
    always send their query, whatever the pieces are. *)
Theorem query_panics_iff_no_slash (w : World) (opts : Opts) :
  ((exists e, result (getMainOid w opts) = Panic e) <->
   has_slash (Repository_ opts) = false) /\
  ((exists e, result (CheckBranchExists w opts) = Panic e) <->
   has_slash (Repository_ opts) = false) /\
  (forall e, result (getMainOid w opts) = Panic e -> e = IndexOutOfRange 1 1) /\
  (forall e, result (CheckBranchExists w opts) = Panic e ->
     e = IndexOutOfRange 1 1) /\
  (has_slash (Repository_ opts) = true ->
   length (queries (trace (getMainOid w opts))) = 1 /\
   length (queries (trace (CheckBranchExists w opts))) = 1).
Proof.
  unfold getMainOid, CheckBranchExists.
  destruct (has_slash (Repository_ opts)) eqn:Hs.
  - destruct (Split_has_slash _ Hs) as (a & b & rest & ->). simpl.
    destruct (Query_MainOid w (mainVariables a b)) as [[oid id]|e1];
      destruct (Query_RefName w (branchVariables a b (BranchName opts)))
        as [refName|e2]; simpl;
      try destruct (negb (refName =? "")); simpl;
      repeat split; try done; try (intros [e He]; discriminate).
  - rewrite (Split_no_slash _ Hs). simpl.
    repeat split; try done; try (by eexists);
      intros e He; by inversion He.
Qed.

(** X6. Of an identifier with more than one separator only the first two
    pieces reach the queries, while the commit request names the whole
    identifier. *)
Theorem identifier_surplus_pieces (w : World) (opts : Opts)
  (owner name surplus : string) (changes : list FileAddition)
  (revision : Reference) :
  has_slash owner = false ->
  has_slash name = false ->
  Repository_ opts = owner +:+ String slash (name +:+ String slash surplus) ->
  queries (trace (getMainOid w opts)) = [QueryMainOid (mainVariables owner name)] /\
  queries (trace (CheckBranchExists w opts))
    = [QueryRefName (branchVariables owner name (BranchName opts))] /\
  RepositoryNameWithOwner (Branch (commitInput changes opts revision))
    = Some (owner +:+ String slash (name +:+ String slash surplus)).
Proof.
  intros Ho Hn Hrepo.
  assert (Hsplit : exists rest, Split_slash (Repository_ opts) = owner :: name :: rest).
  { rewrite Hrepo. clear Hrepo. induction owner as [|c r IH]; simpl.
    - clear Ho. induction name as [|c r IH]; simpl.
      + destruct (Split_slash surplus) as [|p ps] eqn:Hr;
          [by apply Split_slash_nonempty in Hr|]. by eexists.
      + simpl in Hn. destruct (Ascii.eqb c slash); simpl in *; [discriminate|].
        destruct (IH Hn) as [rest Hrest].
        destruct (Split_slash (r +:+ String slash surplus)) as [|p ps] eqn:Hr;
          [by apply Split_slash_nonempty in Hr|].
        inversion Hrest; subst. by eexists.
    - simpl in Ho. destruct (Ascii.eqb c slash); simpl in *; [discriminate|].
      destruct (IH Ho) as [rest ->]. by eexists. }
  destruct Hsplit as [rest Hsplit].
  unfold getMainOid, CheckBranchExists, commitInput. rewrite Hsplit. simpl.
  rewrite Hrepo.
  destruct (Query_MainOid w (mainVariables owner name)) as [[oid id]|e1];
    destruct (Query_RefName w (branchVariables owner name (BranchName opts)))
      as [refName|e2]; simpl;
    try destruct (negb (refName =? "")); simpl; by repeat split.
Qed.

Lemma identifier_surplus_pieces_witness :
  queries (trace (getMainOid newBranchWorld (mkOpts "org/repo/x/y" "b" "m" false)))
    = [QueryMainOid (mainVariables "org" "repo")] /\
  queries (trace (CheckBranchExists newBranchWorld
                    (mkOpts "org/repo/x/y" "b" "m" false)))
    = [QueryRefName (branchVariables "org" "repo" "b")] /\
  RepositoryNameWithOwner
    (Branch (commitInput exampleChanges (mkOpts "org/repo/x/y" "b" "m" false)
               (mkReference "refs/heads/main" "1111")))
    = Some "org/repo/x/y".
Proof.
  apply (identifier_surplus_pieces newBranchWorld
           (mkOpts "org/repo/x/y" "b" "m" false) "org" "repo" "x/y");
    reflexivity.
Defined.

(** ** The encoder *)

Lemma EncodeToString_length_le (n : nat) (src : list Byte.byte) :
  length src <= n ->
  String.length (EncodeToString src) = 4 * ((length src + 2) / 3).
Proof.
  revert src. induction (lt_wf n) as [n _ IH].
  intros src Hlen.
  destruct src as [|a [|b [|c rest]]]; try reflexivity.
  cbn [EncodeToString String.length length].
  rewrite (IH (length rest)); [|simpl in Hlen; lia|lia].
  replace (S (S (S (length rest))) + 2) with (length rest + 2 + 1 * 3) by lia.
  rewrite Nat.div_add by lia. lia.
Qed.

(** X7. The encoding of [n] bytes is 4 characters for every started group
    of 3 bytes. *)
Theorem EncodeToString_length (src : list Byte.byte) :
  String.length (EncodeToString src) = 4 * ((length src + 2) / 3).
Proof. by apply (EncodeToString_length_le (length src)). Qed.

(** ** Runs of [main], continued *)

Lemma remote_calls_app (t1 t2 : list Event) :
  remote_calls (t1 ++ t2) = (remote_calls t1 ++ remote_calls t2)%list.
Proof. apply filter_app. Qed.

Lemma queries_app (t1 t2 : list Event) :
  queries (t1 ++ t2) = (queries t1 ++ queries t2)%list.
Proof. apply omap_app. Qed.

Lemma fetches_app (t1 t2 : list Event) :
  fetches (t1 ++ t2) = (fetches t1 ++ fetches t2)%list.
Proof. apply omap_app. Qed.

(** The Change Collector writes log lines only, and either returns or ends
    the process with code 0. *)
Lemma addChanges_logs (w : World) (status : Status) :
  (forall ev, ev ∈ trace (addChanges w status) -> exists line, ev = EvLog line) /\
  queries (trace (addChanges w status)) = [] /\
  fetches (trace (addChanges w status)) = [] /\
  ((exists changes, result (addChanges w status) = Ret changes) \/
   addChanges w status = ([EvLog "no changes to commit, exiting"], Exit 0)).
Proof.
  rewrite addChanges_eq. simpl.
  destruct (selected (range_Status w status)) as [|e sel].
  - repeat split; [|by right].
    intros ev Hin. apply list_elem_of_singleton in Hin. by eexists.
  - repeat split.
    + intros ev Hin. apply list_elem_of_fmap in Hin as [entry [-> _]]. by eexists.
    + generalize (e :: sel). intros l. by induction l.
    + generalize (e :: sel). intros l. by induction l.
    + left. by eexists.
Qed.

(** Opening a run of [main] on parsed options: the repository opens or not,
    the Change Collector returns [changes] after the lines [ta] or exits. *)
Ltac main_cases :=
  unfold main, openRepository; simpl;
  destruct (git_PlainOpen _) as [?repo|?e] eqn:?Hopen; simpl;
  try (destruct (repo_Worktree _) as [[]|?e] eqn:?Htree; simpl);
  try (destruct (worktree_Status _) as [?status|?e] eqn:?Hstatus; simpl);
  try match goal with
      | |- context [addChanges ?w ?status] =>
          let Hc := fresh "Hc" in
          let Hr := fresh "Hr" in
          let Hp := fresh "Hp" in
          let Hrem := fresh "Hrem" in
          let Hlog := fresh "Hlog" in
          let Hq := fresh "Hq" in
          let Hf := fresh "Hf" in
          let Hres := fresh "Hres" in
          destruct (addChanges_requests w status) as (Hc & Hr & Hp & Hrem);
          destruct (addChanges_logs w status) as (Hlog & Hq & Hf & Hres);
          destruct (addChanges w status) as [?ta [?changes|?c|?e]] eqn:?Hadd;
          simpl in Hc, Hr, Hp, Hrem, Hlog, Hq, Hf, Hres |- *;
          destruct Hres as [[? Hres]|Hres];
          try discriminate Hres;
          inversion Hres; subst; clear Hres
      end.

Ltac split_repository :=
  match goal with
  | |- context [Split_slash (Repository_ ?opts)] =>
      destruct (Split_slash (Repository_ opts)) as [|?owner [|?name ?rest]]
        eqn:?Hsplit; simpl
  end.

Ltac world_cases :=
  repeat world_case;
  try match goal with
      | |- context [PullRequest ?opts] =>
          destruct (PullRequest opts) eqn:?Hflag; simpl
      end;
  repeat world_case.

Ltac trace_app :=
  rewrite ?commit_requests_app, ?createRef_requests_app,
    ?pullRequest_requests_app, ?remote_calls_app, ?queries_app, ?fetches_app.

Ltac rewrite_answer E H :=
  tryif constr_eq E H then fail else rewrite E in H.

Ltac rewrite_answers_in H :=
  repeat match goal with
         | E : Query_MainOid _ _ = _ |- _ => rewrite_answer E H
         | E : Query_RefName _ _ = _ |- _ => rewrite_answer E H
         | E : Mutate_CreateRef _ _ = _ |- _ => rewrite_answer E H
         | E : Mutate_CreateCommitOnBranch _ _ = _ |- _ => rewrite_answer E H
         | E : Mutate_CreatePullRequest _ _ = _ |- _ => rewrite_answer E H
         end.

(** Which event of a concrete trace a member is. *)
Ltac member_cases H :=
  repeat (apply elem_of_cons in H as [H|H]; [subst|]);
  try (by apply elem_of_nil in H).

(** X8. A GraphQL call that the remote answers with an error ends the run:
    exit code 1, the last line written names the stage and the error, and
    no remote call follows the failed one. *)
Theorem failed_call_fatal (w : World) (opts : Opts) (call : Event) (e : error) :
  call ∈ trace (main w (ParseOk opts)) ->
  call_error w call = Some e ->
  result (main w (ParseOk opts)) = Exit 1 /\
  last (trace (main w (ParseOk opts))) = Some (EvLog (diagnostic call +:+ e)) /\
  last (remote_calls (trace (main w (ParseOk opts)))) = Some call.
Proof.
  main_cases.
  2-5: intros Hin Herr; member_cases Hin; discriminate Herr.
  unfold_run. split_repository.
  1-2: intros Hin Herr; rewrite app_nil_r in Hin;
       destruct (Hlog _ Hin) as [line ->]; discriminate.
  world_cases.
  all: intros Hin Herr.
  all: apply elem_of_app in Hin as [Hin|Hin];
    [destruct (Hlog _ Hin) as [line ->]; discriminate|].
  all: member_cases Hin.
  all: simpl in Herr; rewrite_answers_in Herr; try discriminate.
  all: inversion Herr; subst.
  all: trace_app; rewrite ?Hrem; simpl.
  all: rewrite ?last_app; simpl.
  all: repeat split; try done.
Qed.

Lemma failed_call_fatal_witness :
  result (main (with_mutations (Err "conflict") None newBranchWorld)
            (ParseOk exampleOpts)) = Exit 1 /\
  last (trace (main (with_mutations (Err "conflict") None newBranchWorld)
                 (ParseOk exampleOpts)))
    = Some (EvLog ("unable to commit: " +:+ "conflict")) /\
  last (remote_calls (trace (main (with_mutations (Err "conflict") None newBranchWorld)
                               (ParseOk exampleOpts))))
    = Some (EvMutate (MutCreateCommitOnBranch
                        (commitInput exampleChanges exampleOpts
                           (mkReference "refs/heads/main" "1111")))).
Proof.
  apply (failed_call_fatal (with_mutations (Err "conflict") None newBranchWorld)
           exampleOpts
           (EvMutate (MutCreateCommitOnBranch
                        (commitInput exampleChanges exampleOpts
                           (mkReference "refs/heads/main" "1111"))))
           "conflict").
  - vm_compute.
    repeat first [ apply list_elem_of_here | apply list_elem_of_further ].
  - reflexivity.
Defined.

(** X9. The remote calls of a run follow the protocol order - resolve, check,
    then create or fetch, then commit, then pull request - so each is made
    at most once and a run never both creates the branch and fetches it. *)
Theorem remote_calls_in_order (w : World) (parsed : ParseResult) :
  StronglySorted lt (call_rank <$> remote_calls (trace (main w parsed))) /\
  length (queries (trace (main w parsed))) <= 2 /\
  length (createRef_requests (trace (main w parsed))) <= 1 /\
  length (fetches (trace (main w parsed))) <= 1 /\
  length (commit_requests (trace (main w parsed))) <= 1 /\
  length (pullRequest_requests (trace (main w parsed))) <= 1 /\
  (createRef_requests (trace (main w parsed)) = [] \/
   fetches (trace (main w parsed)) = []).
Proof.
  destruct parsed as [opts| | |e];
    try (simpl; repeat split; first [lia | by left | by constructor]).
  main_cases.
  2-5: simpl; repeat split; first [lia | by left | by constructor].
  unfold_run. split_repository.
  1-2: rewrite app_nil_r, Hrem, Hq, Hr, Hf, Hc, Hp; simpl;
       repeat split; first [lia | by left | by constructor].
  world_cases.
  all: trace_app; rewrite Hrem, Hq, Hr, Hf, Hc, Hp; simpl.
  all: repeat split;
    first [ lia | by left | by right | repeat constructor; simpl; lia ].
Qed.

(** X10. A run that returns normally has submitted exactly one commit, which
    the remote accepted; with the pull-request option set it has also opened
    exactly one pull request, which the remote accepted. *)
Theorem normal_return_has_committed (w : World) (parsed : ParseResult) :
  result (main w parsed) = Ret tt ->
  exists opts c url,
    parsed = ParseOk opts /\
    commit_requests (trace (main w parsed)) = [c] /\
    Mutate_CreateCommitOnBranch w c = OK url /\
    (if PullRequest opts
     then exists i, pullRequest_requests (trace (main w parsed)) = [i] /\
                    Mutate_CreatePullRequest w i = None
     else pullRequest_requests (trace (main w parsed)) = []).
Proof.
  destruct parsed as [opts| | |e]; try discriminate.
  main_cases; try discriminate.
  unfold_run. split_repository; try discriminate.
  world_cases.
  all: try discriminate.
  all: intros _; trace_app; rewrite ?Hc, ?Hp; simpl.
  all: eexists opts, _, _; repeat split; try eassumption.
  all: rewrite ?Hflag; try done.
  all: eexists; split; [reflexivity|eassumption].
Qed.

Lemma normal_return_has_committed_witness :
  exists opts c url,
    ParseOk exampleOpts = ParseOk opts /\
    commit_requests (trace (main newBranchWorld (ParseOk exampleOpts))) = [c] /\
    Mutate_CreateCommitOnBranch newBranchWorld c = OK url /\
    (if PullRequest opts
     then exists i,
         pullRequest_requests (trace (main newBranchWorld (ParseOk exampleOpts))) = [i] /\
         Mutate_CreatePullRequest newBranchWorld i = None
     else pullRequest_requests (trace (main newBranchWorld (ParseOk exampleOpts))) = []).
Proof.
  apply (normal_return_has_committed newBranchWorld (ParseOk exampleOpts)).
  vm_compute. reflexivity.
Defined.

(** X11. Every commit request of a run names the repository, the branch and
    the message of the options, and its additions are the ChangeSet the
    Change Collector returned, which is not empty. *)
Theorem commit_request_content (w : World) (opts : Opts)
  (c : CreateCommitOnBranchInput) :
  c ∈ commit_requests (trace (main w (ParseOk opts))) ->
  Branch c = mkCommittableBranch (Some (Repository_ opts)) (Some (BranchName opts)) /\
  Headline c = Message opts /\
  Additions c <> [] /\
  exists status,
    worktree_Status w = OK status /\
    result (addChanges w status) = Ret (Additions c).
Proof.
  main_cases.
  all: try (simpl; intros Hin; by apply elem_of_nil in Hin).
  assert (Hne : x <> []).
  { intros ->. rewrite addChanges_eq in Hadd. simpl in Hadd.
    destruct (selected (range_Status w status)); discriminate. }
  unfold_run. split_repository.
  1-2: rewrite app_nil_r, Hc; intros Hin; member_cases Hin.
  world_cases.
  all: trace_app; rewrite Hc; simpl.
  all: intros Hin; member_cases Hin.
  all: repeat split; try done.
  all: exists status; split; [done|]; by rewrite Hadd.
Qed.

Lemma commit_request_content_witness :
  Branch (commitInput exampleChanges exampleOpts (mkReference "refs/heads/main" "1111"))
    = mkCommittableBranch (Some (Repository_ exampleOpts)) (Some (BranchName exampleOpts)) /\
  Headline (commitInput exampleChanges exampleOpts (mkReference "refs/heads/main" "1111"))
    = Message exampleOpts /\
  Additions (commitInput exampleChanges exampleOpts (mkReference "refs/heads/main" "1111"))
    <> [] /\
  exists status,
    worktree_Status newBranchWorld = OK status /\
    result (addChanges newBranchWorld status)
      = Ret (Additions (commitInput exampleChanges exampleOpts
                          (mkReference "refs/heads/main" "1111"))).
Proof.
  apply (commit_request_content newBranchWorld exampleOpts).
  vm_compute. apply list_elem_of_here.
Defined.

(** X12. A pull request is opened only after the commit of the same run was
    accepted, and in the repository whose id the resolver returned. *)
Theorem pull_request_after_commit (w : World) (opts : Opts)
  (i : CreatePullRequestInput) :
  i ∈ pullRequest_requests (trace (main w (ParseOk opts))) ->
  exists oid c url,
    result (getMainOid w opts) = Ret (oid, PR_RepositoryID i, None) /\
    commit_requests (trace (main w (ParseOk opts))) = [c] /\
    Mutate_CreateCommitOnBranch w c = OK url.
Proof.
  main_cases.
  all: try (simpl; intros Hin; by apply elem_of_nil in Hin).
  unfold_run. split_repository.
  1-2: rewrite app_nil_r, Hp; intros Hin; by apply elem_of_nil in Hin.
  world_cases.
  all: trace_app; rewrite Hp, Hc; simpl.
  all: intros Hin; member_cases Hin.
  all: eexists _, _, _; repeat split; try eassumption.
Qed.

Lemma pull_request_after_commit_witness :
  exists oid c url,
    result (getMainOid newBranchWorld exampleOpts)
      = Ret (oid, PR_RepositoryID (pullRequestInput exampleOpts "R_1"), None) /\
    commit_requests (trace (main newBranchWorld (ParseOk exampleOpts))) = [c] /\
    Mutate_CreateCommitOnBranch newBranchWorld c = OK url.
Proof.
  apply (pull_request_after_commit newBranchWorld exampleOpts
           (pullRequestInput exampleOpts "R_1")).
  vm_compute. apply list_elem_of_here.
Defined.

(** X13. The only way a run can panic is the index out of range on a
    repository identifier without separator; it does so before any remote
    call, and never dereferences a nil repository or revision. *)
Theorem only_panic (w : World) (parsed : ParseResult) (e : RuntimeError) :
  result (main w parsed) = Panic e ->
  e = IndexOutOfRange 1 1 /\
  remote_calls (trace (main w parsed)) = [] /\
  exists opts, parsed = ParseOk opts /\ has_slash (Repository_ opts) = false.
Proof.
  destruct parsed as [opts| | |e']; try discriminate.
  main_cases; try discriminate.
  unfold_run. split_repository.
  - by apply Split_slash_nonempty in Hsplit.
  - intros Hp'. inversion Hp'; subst e. rewrite app_nil_r, Hrem.
    repeat split. exists opts. split; [done|].
    destruct (has_slash (Repository_ opts)) eqn:Hs; [|done].
    destruct (Split_has_slash _ Hs) as (a & b & l & Heq).
    rewrite Heq in Hsplit. discriminate.
  - world_cases; discriminate.
Qed.

Lemma only_panic_witness :
  IndexOutOfRange 1 1 = IndexOutOfRange 1 1 /\
  remote_calls (trace (main newBranchWorld
                         (ParseOk (mkOpts "orgrepo" "feature-x" "msg" false)))) = [] /\
  exists opts,
    ParseOk (mkOpts "orgrepo" "feature-x" "msg" false) = ParseOk opts /\
    has_slash (Repository_ opts) = false.
Proof.
  apply (only_panic newBranchWorld
           (ParseOk (mkOpts "orgrepo" "feature-x" "msg" false))).
  vm_compute. reflexivity.
Defined.

(** X14. A run on parsed options that ends through [os.Exit] either had
    nothing to commit - code 0, one line written - or failed at some stage:
    code 1, and the last line written starts with "unable to ". *)
Theorem exit_codes (w : World) (opts : Opts) (code : nat) :
  result (main w (ParseOk opts)) = Exit code ->
  (code = 0 /\
   trace (main w (ParseOk opts)) = [EvLog "no changes to commit, exiting"]) \/
  (code = 1 /\
   exists line,
     last (trace (main w (ParseOk opts))) = Some (EvLog line) /\
     String.prefix "unable to " line = true).
Proof.
  main_cases.
  2: intros Hx; inversion Hx; by left.
  2-4: intros Hx; inversion Hx; right; split; [done|]; by eexists.
  unfold_run. split_repository; try discriminate.
  world_cases.
  all: try discriminate.
  all: intros Hx; inversion Hx; right; split; [done|].
  all: rewrite last_app; simpl; by eexists.
Qed.

Lemma exit_codes_witness :
  (1 = 0 /\
   trace (main refusedBranchWorld (ParseOk exampleOpts))
     = [EvLog "no changes to commit, exiting"]) \/
  (1 = 1 /\
   exists line,
     last (trace (main refusedBranchWorld (ParseOk exampleOpts))) = Some (EvLog line) /\
     String.prefix "unable to " line = true).
Proof.
  apply (exit_codes refusedBranchWorld exampleOpts 1).
  vm_compute. reflexivity.
Defined.

Lemma branchVariables_branchName (owner name branch : string) :
  branchVariables owner name branch !! "branchName" = Some ("refs/heads/" +:+ branch).
Proof.
  unfold branchVariables.
  rewrite lookup_insert_ne by done. rewrite lookup_insert_ne by done.
  by rewrite lookup_insert_eq.
Qed.

(** X15. The ref a run creates is the ref it has just asked the remote
    about: the name in the branch-creation mutation is the [branchName]
    variable of the branch query of the same run. *)
Theorem created_ref_is_checked_ref (w : World) (opts : Opts)
  (i : CreateRefInput) :
  i ∈ createRef_requests (trace (main w (ParseOk opts))) ->
  exists variables,
    QueryRefName variables ∈ queries (trace (main w (ParseOk opts))) /\
    variables !! "branchName" = Some (CR_Name i).
Proof.
  main_cases.
  all: try (simpl; intros Hin; by apply elem_of_nil in Hin).
  unfold_run. split_repository.
  1-2: rewrite app_nil_r, Hr; intros Hin; by apply elem_of_nil in Hin.
  world_cases.
  all: trace_app; rewrite Hr, Hq; simpl.
  all: intros Hin; member_cases Hin.
  all: eexists; split;
    [apply list_elem_of_further, list_elem_of_here
    |apply branchVariables_branchName].
Qed.

Lemma created_ref_is_checked_ref_witness :
  exists variables,
    QueryRefName variables
    ∈ queries (trace (main newBranchWorld (ParseOk exampleOpts))) /\
    variables !! "branchName" = Some (CR_Name (createRefInput exampleOpts "R_1" "9999")).
Proof.
  apply (created_ref_is_checked_ref newBranchWorld exampleOpts
           (createRefInput exampleOpts "R_1" "9999")).
  vm_compute. apply list_elem_of_here.
Defined.

(** X16. With an existing branch and no remote named origin, the run makes
    no fetch, writes that the remote was not found, and commits on the hash
    of the local tracking reference as it is. *)
Theorem missing_origin_not_fatal (w : World) (opts : Opts) (repo : Repository)
  (changes : list FileAddition) (oid repoId : string) :
  reaches_resolution w opts repo changes oid repoId true ->
  "origin" ∉ repo_remotes repo ->
  fetches (trace (main w (ParseOk opts))) = [] /\
  EvLog "unable to fetch remote: remote not found" ∈ trace (main w (ParseOk opts)) /\
  commit_requests (trace (main w (ParseOk opts)))
  = match repo_refs repo !! ("refs/remotes/origin/" +:+ BranchName opts) with
    | Some r => [commitInput changes opts r]
    | None => []
    end.
Proof.
  intros (Hopen & Htree & (status & Hstatus & Hadd) & Hmain & Hcheck) Horigin.
  revert Hmain Hcheck.
  unfold main, openRepository. rewrite Hopen, Htree, Hstatus. simpl.
  destruct (addChanges_requests w status) as (Hc & Hr & Hp & _).
  destruct (addChanges_logs w status) as (_ & _ & Hf & _).
  destruct (addChanges w status) as [ta r]; simpl in *; subst r.
  unfold_run.
  rewrite (bool_decide_eq_false_2 _ Horigin).
  split_repository; try discriminate.
  world_cases.
  all: intros Hmain Hcheck; try discriminate.
  all: inversion Hmain; inversion Hcheck; subst.
  all: trace_app; rewrite ?Hf, ?Hc; simpl.
  all: repeat split; try done; find_event.
Qed.

Lemma missing_origin_not_fatal_witness :
  fetches (trace (main noOriginWorld (ParseOk exampleOpts))) = [] /\
  EvLog "unable to fetch remote: remote not found"
  ∈ trace (main noOriginWorld (ParseOk exampleOpts)) /\
  commit_requests (trace (main noOriginWorld (ParseOk exampleOpts)))
  = match repo_refs noOriginRepository
            !! ("refs/remotes/origin/" +:+ BranchName exampleOpts) with
    | Some r => [commitInput exampleChanges exampleOpts r]
    | None => []
    end.
Proof.
  apply (missing_origin_not_fatal noOriginWorld exampleOpts noOriginRepository
           exampleChanges "9999" "R_1").
  - split; [reflexivity|]. split; [reflexivity|]. split.
    + exists exampleStatus. split; [reflexivity|]. vm_compute. reflexivity.
    + split; reflexivity.
  - vm_compute. intros Hin.
    apply list_elem_of_singleton in Hin. discriminate Hin.
Defined.



(** ** The previous revision of [main] *)

Ltac previous_cases :=
  unfold Previous.main; simpl;
  destruct (git_PlainOpen _) as [?repo|?e] eqn:?Hopen; simpl;
  try (destruct (repo_Worktree _) as [[]|?e] eqn:?Htree; simpl);
  try (destruct (worktree_Status _) as [?status|?e] eqn:?Hstatus; simpl);
  try match goal with
      | |- context [addChanges ?w ?status] =>
          let Hc := fresh "Hc" in
          let Hr := fresh "Hr" in
          let Hp := fresh "Hp" in
          let Hrem := fresh "Hrem" in
          let Hlog := fresh "Hlog" in
          let Hq := fresh "Hq" in
          let Hf := fresh "Hf" in
          let Hres := fresh "Hres" in
          destruct (addChanges_requests w status) as (Hc & Hr & Hp & Hrem);
          destruct (addChanges_logs w status) as (Hlog & Hq & Hf & Hres);
          destruct (addChanges w status) as [?ta [?changes|?c|?e]] eqn:?Hadd;
          simpl in Hc, Hr, Hp, Hrem, Hlog, Hq, Hf, Hres |- *;
          destruct Hres as [[? Hres]|Hres];
          try discriminate Hres;
          inversion Hres; subst; clear Hres
      end.

(** X18. In the previous revision the answer to the pull-request mutation
    is dropped: once the mutation has been sent the run returns normally,
    whether the remote accepted it or not. *)
Theorem previous_drops_pull_request_error (w : World) (opts : Opts)
  (i : CreatePullRequestInput) :
  i ∈ pullRequest_requests (trace (Previous.main w (ParseOk opts))) ->
  result (Previous.main w (ParseOk opts)) = Ret tt /\
  last (remote_calls (trace (Previous.main w (ParseOk opts))))
    = Some (EvMutate (MutCreatePullRequest i)).
Proof.
  previous_cases.
  all: try (simpl; intros Hin; by apply elem_of_nil in Hin).
  unfold_run. split_repository.
  1-2: rewrite app_nil_r, Hp; intros Hin; by apply elem_of_nil in Hin.
  world_cases.
  all: trace_app; rewrite Hp, Hrem; simpl.
  all: intros Hin; member_cases Hin.
  all: by split.
Qed.

Lemma previous_drops_pull_request_error_witness :
  result (Previous.main
            (with_mutations (OK "url") (Some "already exists") staleBranchWorld)
            (ParseOk exampleOpts)) = Ret tt /\
  last (remote_calls
          (trace (Previous.main
                    (with_mutations (OK "url") (Some "already exists") staleBranchWorld)
                    (ParseOk exampleOpts))))
    = Some (EvMutate (MutCreatePullRequest (pullRequestInput exampleOpts "R_1"))).
Proof.
  apply (previous_drops_pull_request_error
           (with_mutations (OK "url") (Some "already exists") staleBranchWorld)
           exampleOpts (pullRequestInput exampleOpts "R_1")).
  vm_compute. apply list_elem_of_here.
Defined.

(** The same world under the current [main]: the refused pull request is
    fatal. *)
Example current_pull_request_error_fatal :
  result (main (with_mutations (OK "url") (Some "already exists") staleBranchWorld)
            (ParseOk exampleOpts)) = Exit 1.
Proof. vm_compute. reflexivity. Qed.

(** X19. In the previous revision a new branch is created at the
    default-branch tip and the commit then expects the hash of the local
    reference named refs/head/main; when the repository has no reference of
    that name the run exits after the branch was created, without a commit. *)
Theorem previous_new_branch (w : World) (opts : Opts) (repo : Repository)
  (changes : list FileAddition) (oid repoId : string) :
  reaches_resolution w opts repo changes oid repoId false ->
  createRef_requests (trace (Previous.main w (ParseOk opts)))
    = [createRefInput opts repoId oid] /\
  commit_requests (trace (Previous.main w (ParseOk opts)))
    = match Mutate_CreateRef w (createRefInput opts repoId oid),
            repo_refs repo !! "refs/head/main" with
      | None, Some r => [commitInput changes opts r]
      | _, _ => []
      end /\
  (Mutate_CreateRef w (createRefInput opts repoId oid) = None ->
   repo_refs repo !! "refs/head/main" = None ->
   result (Previous.main w (ParseOk opts)) = Exit 1 /\
   last (trace (Previous.main w (ParseOk opts)))
     = Some (EvLog "unable to find HEAD for branch main: reference not found")).
Proof.
  intros (Hopen & Htree & (status & Hstatus & Hadd) & Hmain & Hcheck).
  revert Hmain Hcheck.
  unfold Previous.main. rewrite Hopen, Htree, Hstatus. simpl.
  destruct (addChanges_requests w status) as (Hc & Hr & Hp & _).
  destruct (addChanges w status) as [ta r]; simpl in *; subst r.
  unfold_run. split_repository; try discriminate.
  world_cases.
  all: intros Hmain Hcheck; try discriminate.
  all: inversion Hmain; inversion Hcheck; subst.
  all: trace_app; rewrite ?Hr, ?Hc; simpl.
  all: repeat split; try done; try congruence.
  all: rewrite last_app; reflexivity.
Qed.

Lemma previous_new_branch_witness :
  createRef_requests (trace (Previous.main headMainWorld (ParseOk exampleOpts)))
    = [createRefInput exampleOpts "R_1" "9999"] /\
  commit_requests (trace (Previous.main headMainWorld (ParseOk exampleOpts)))
    = match Mutate_CreateRef headMainWorld (createRefInput exampleOpts "R_1" "9999"),
            repo_refs headMainRepository !! "refs/head/main" with
      | None, Some r => [commitInput exampleChanges exampleOpts r]
      | _, _ => []
      end /\
  (Mutate_CreateRef headMainWorld (createRefInput exampleOpts "R_1" "9999") = None ->
   repo_refs headMainRepository !! "refs/head/main" = None ->
   result (Previous.main headMainWorld (ParseOk exampleOpts)) = Exit 1 /\
   last (trace (Previous.main headMainWorld (ParseOk exampleOpts)))
     = Some (EvLog "unable to find HEAD for branch main: reference not found")).
Proof.
  apply (previous_new_branch headMainWorld exampleOpts headMainRepository
           exampleChanges "9999" "R_1").
  split; [reflexivity|]. split; [reflexivity|]. split.
  - exists exampleStatus. split; [reflexivity|]. vm_compute. reflexivity.
  - split; reflexivity.
Defined.

(** On a checkout that only has the usual references the previous revision
    creates the branch and then stops. *)
Example previous_new_branch_stops :
  result (Previous.main newBranchWorld (ParseOk exampleOpts)) = Exit 1 /\
  length (createRef_requests (trace (Previous.main newBranchWorld (ParseOk exampleOpts)))) = 1 /\
  commit_requests (trace (Previous.main newBranchWorld (ParseOk exampleOpts))) = [].
Proof. repeat split; vm_compute; reflexivity. Qed.

(** X20. The previous revision never fetches, whatever the run; for an
    existing branch it submits the same commit request as the current one
    whenever the fetch of the current one leaves the tracking reference
    where it was. *)
Theorem previous_same_commit (w : World) (opts : Opts) (repo : Repository)
  (changes : list FileAddition) (oid repoId : string) :
  (forall parsed, fetches (trace (Previous.main w parsed)) = []) /\
  (reaches_resolution w opts repo changes oid repoId true ->
   repo_refs (remote_Fetch w repo).1 !! ("refs/remotes/origin/" +:+ BranchName opts)
     = repo_refs repo !! ("refs/remotes/origin/" +:+ BranchName opts) ->
   commit_requests (trace (Previous.main w (ParseOk opts)))
     = commit_requests (trace (main w (ParseOk opts)))).
Proof.
  split.
  - intros [opts'| | |e]; try reflexivity.
    previous_cases; try reflexivity.
    unfold_run. split_repository.
    1-2: by rewrite app_nil_r.
    world_cases.
    all: trace_app; by rewrite Hf.
  - intros (Hopen & Htree & (status & Hstatus & Hadd) & Hmain & Hcheck).
    revert Hmain Hcheck.
    unfold Previous.main, main, openRepository. rewrite Hopen, Htree, Hstatus.
    simpl.
    destruct (addChanges_requests w status) as (Hc & Hr & Hp & _).
    destruct (addChanges w status) as [ta r]; simpl in *; subst r.
    unfold_run. split_repository; try discriminate.
    world_cases.
    all: intros Hmain Hcheck; try discriminate.
    all: inversion Hmain; inversion Hcheck; subst.
    all: simpl; intros Hsame; try discriminate Hsame.
    all: try (inversion Hsame; subst).
    all: trace_app; rewrite ?Hc; simpl.
    all: try done; try congruence.
Qed.

Lemma previous_same_commit_witness :
  fetches (trace (Previous.main staleBranchWorld (ParseOk exampleOpts))) = [] /\
  commit_requests (trace (Previous.main staleBranchWorld (ParseOk exampleOpts)))
    = commit_requests (trace (main staleBranchWorld (ParseOk exampleOpts))).
Proof.
  destruct (previous_same_commit staleBranchWorld exampleOpts exampleRepository
              exampleChanges "9999" "R_1") as [Hnever Hsame].
  split; [apply Hnever|]. apply Hsame.
  - split; [reflexivity|]. split; [reflexivity|]. split.
    + exists exampleStatus. split; [reflexivity|]. vm_compute. reflexivity.
    + split; reflexivity.
  - reflexivity.
Defined.

(** ** Runs of [main]: what is written and what is ignored *)

(** Two answers of the world to the same call are the same answer. *)
Ltac merge_answers :=
  repeat match goal with
         | H1 : ?call = _, H2 : ?call = _ |- _ =>
             tryif constr_eq H1 H2 then fail
             else (rewrite H1 in H2;
                   first [ discriminate H2 | inversion H2; subst; clear H2 ])
         end.

(** X21. When the remote accepts the commit, the run writes the line
    "mutation complete: " followed by the URL the remote returned. *)
Theorem commit_url_logged (w : World) (opts : Opts)
  (c : CreateCommitOnBranchInput) (url : string) :
  c ∈ commit_requests (trace (main w (ParseOk opts))) ->
  Mutate_CreateCommitOnBranch w c = OK url ->
  EvLog ("mutation complete: " +:+ url) ∈ trace (main w (ParseOk opts)).
Proof.
  main_cases.
  all: try (simpl; intros Hin; by apply elem_of_nil in Hin).
  unfold_run. split_repository.
  1-2: rewrite app_nil_r, Hc; intros Hin; by apply elem_of_nil in Hin.
  world_cases.
  all: trace_app; rewrite Hc; simpl.
  all: intros Hin Hok; member_cases Hin.
  all: try discriminate Hok; inversion Hok; subst.
  all: merge_answers; find_event.
Qed.

Lemma commit_url_logged_witness :
  EvLog ("mutation complete: " +:+ "https://example/commit")
  ∈ trace (main newBranchWorld (ParseOk exampleOpts)).
Proof.
  apply (commit_url_logged newBranchWorld exampleOpts
           (commitInput exampleChanges exampleOpts
              (mkReference "refs/heads/main" "1111"))).
  - vm_compute. apply list_elem_of_here.
  - reflexivity.
Defined.

(** X22. The errors of the file reads have no influence on a run: with all
    of them erased, [main] writes the same trace and ends the same way. *)
Theorem read_errors_ignored (w : World) (parsed : ParseResult) :
  main (without_read_errors w) parsed = main w parsed.
Proof.
  destruct parsed as [opts| | |e]; try reflexivity.
  unfold main, openRepository. simpl.
  destruct (git_PlainOpen w) as [repo|e]; [|reflexivity].
  destruct (repo_Worktree w) as [[]|e]; [|reflexivity].
  destruct (worktree_Status w) as [status|e]; [|reflexivity].
  simpl.
  assert (Hadd : addChanges (without_read_errors w) status = addChanges w status)
    by (rewrite !addChanges_eq; reflexivity).
  rewrite Hadd. reflexivity.
Qed.

(** ** The encoder loses nothing *)

Section Sextets.

Local Open Scope N_scope.

Lemma testbit_small (a k n : N) : a < 2 ^ k -> k <= n -> N.testbit a n = false.
Proof.
  intros Ha Hk. destruct (N.eq_dec a 0) as [->|Hne]; [apply N.bits_0|].
  apply N.bits_above_log2.
  assert (N.log2 a < k) by (apply N.log2_lt_pow2; lia). lia.
Qed.

Lemma testbit_byte_high (x : Byte.byte) (n : N) :
  8 <= n -> N.testbit (Byte.to_N x) n = false.
Proof.
  intros Hn. apply (testbit_small _ 8); [|done].
  pose proof (Byte.to_N_bounded x). change (2 ^ 8) with 256. lia.
Qed.

Lemma group_bits_hi (x y z n : N) :
  y < 256 -> z < 256 -> n < 8 ->
  N.testbit (group x y z) (n + 16) = N.testbit x n.
Proof.
  intros Hy Hz Hn. unfold group. rewrite !N.lor_spec.
  rewrite N.shiftl_spec_high' by lia. rewrite N.shiftl_spec_high' by lia.
  rewrite (testbit_small y 8) by (change (2 ^ 8) with 256; lia).
  rewrite (testbit_small z 8) by (change (2 ^ 8) with 256; lia).
  rewrite !orb_false_r. f_equal. lia.
Qed.

Lemma group_bits_mid (x y z n : N) :
  z < 256 -> n < 8 ->
  N.testbit (group x y z) (n + 8) = N.testbit y n.
Proof.
  intros Hz Hn. unfold group. rewrite !N.lor_spec.
  rewrite N.shiftl_spec_low by lia. rewrite N.shiftl_spec_high' by lia.
  rewrite (testbit_small z 8) by (change (2 ^ 8) with 256; lia).
  rewrite orb_false_r. simpl. f_equal. lia.
Qed.

Lemma group_bits_lo (x y z n : N) :
  n < 8 -> N.testbit (group x y z) n = N.testbit z n.
Proof.
  intros Hn. unfold group. rewrite !N.lor_spec.
  rewrite !N.shiftl_spec_low by lia. reflexivity.
Qed.

(** Two values with the same sextet at [shift] agree on its six bits. *)
Lemma sextet_bits (v v' shift n : N) :
  N.land (N.shiftr v shift) 63 = N.land (N.shiftr v' shift) 63 ->
  shift <= n -> n < shift + 6 ->
  N.testbit v n = N.testbit v' n.
Proof.
  intros Heq Hlo Hhi.
  apply (f_equal (fun a => N.testbit a (n - shift))) in Heq.
  rewrite !N.land_spec, !N.shiftr_spec in Heq by lia.
  change 63 with (N.ones 6) in Heq.
  rewrite N.ones_spec_low in Heq by lia. rewrite !andb_true_r in Heq.
  by replace (n - shift + shift) with n in Heq by lia.
Qed.

Lemma land_63_lt (a : N) : N.land a 63 < 64.
Proof.
  change 63 with (N.ones 6). rewrite N.land_ones. by apply N.mod_lt.
Qed.

End Sextets.

(** The 64 characters of the alphabet are distinct and none is the padding
    character. *)
Lemma enc_table :
  forallb (fun n =>
    negb (Ascii.eqb (enc (N.of_nat n)) "="%char) &&
    forallb (fun m =>
      implb (Ascii.eqb (enc (N.of_nat n)) (enc (N.of_nat m))) (Nat.eqb n m))
      (seq 0 64))
    (seq 0 64) = true.
Proof. vm_compute. reflexivity. Qed.

Lemma enc_inj (n m : N) :
  (n < 64)%N -> (m < 64)%N -> enc n = enc m -> n = m.
Proof.
  intros Hn Hm Heq.
  pose proof enc_table as Htable. rewrite forallb_forall in Htable.
  specialize (Htable (N.to_nat n)).
  rewrite N2Nat.id in Htable.
  assert (Hin : In (N.to_nat n) (seq 0 64)) by (apply in_seq; lia).
  apply Htable in Hin. apply andb_prop in Hin as [_ Hin].
  rewrite forallb_forall in Hin. specialize (Hin (N.to_nat m)).
  rewrite N2Nat.id in Hin.
  assert (Hin' : In (N.to_nat m) (seq 0 64)) by (apply in_seq; lia).
  apply Hin in Hin'. rewrite Heq, Ascii.eqb_refl in Hin'. simpl in Hin'.
  apply Nat.eqb_eq in Hin'. lia.
Qed.

Lemma enc_not_padding (n : N) : (n < 64)%N -> enc n <> "="%char.
Proof.
  intros Hn Heq.
  pose proof enc_table as Htable. rewrite forallb_forall in Htable.
  specialize (Htable (N.to_nat n)).
  rewrite N2Nat.id in Htable.
  assert (Hin : In (N.to_nat n) (seq 0 64)) by (apply in_seq; lia).
  apply Htable in Hin. apply andb_prop in Hin as [Hin _].
  rewrite Heq in Hin. discriminate.
Qed.

Lemma sextet_inj (v v' shift : N) :
  sextet v shift = sextet v' shift ->
  N.land (N.shiftr v shift) 63 = N.land (N.shiftr v' shift) 63.
Proof. unfold sextet. apply enc_inj; apply land_63_lt. Qed.

Lemma sextet_not_padding (v shift : N) : sextet v shift <> "="%char.
Proof. unfold sextet. apply enc_not_padding, land_63_lt. Qed.

Lemma to_N_lt (x : Byte.byte) : (Byte.to_N x < 256)%N.
Proof. pose proof (Byte.to_N_bounded x). lia. Qed.

Lemma to_N_inj (x y : Byte.byte) : Byte.to_N x = Byte.to_N y -> x = y.
Proof.
  intros Heq. pose proof (Byte.of_to_N x) as Hx.
  rewrite Heq, Byte.of_to_N in Hx. by inversion Hx.
Qed.

(** The first, second and third byte of a group from the sextets that hold
    their bits. *)
Lemma group_first (a b c a' b' c' : N) :
  (b < 256 -> c < 256 -> b' < 256 -> c' < 256 ->
   a < 256 -> a' < 256 ->
   sextet (group a b c) 18 = sextet (group a' b' c') 18 ->
   sextet (group a b c) 12 = sextet (group a' b' c') 12 ->
   a = a')%N.
Proof.
  intros Hb Hc Hb' Hc' Ha Ha' H18 H12.
  apply sextet_inj in H18. apply sextet_inj in H12.
  apply N.bits_inj. intros n.
  destruct (N.lt_ge_cases n 8) as [Hn|Hn].
  - rewrite <- (group_bits_hi a b c n), <- (group_bits_hi a' b' c' n) by done.
    destruct (N.lt_ge_cases (n + 16) 18).
    + apply (sextet_bits _ _ 12); [done|lia|lia].
    + apply (sextet_bits _ _ 18); [done|lia|lia].
  - rewrite (testbit_small a 8), (testbit_small a' 8);
      try done; by change (2 ^ 8)%N with 256%N.
Qed.

Lemma group_second (a b c a' b' c' : N) :
  (b < 256 -> c < 256 -> b' < 256 -> c' < 256 ->
   sextet (group a b c) 12 = sextet (group a' b' c') 12 ->
   sextet (group a b c) 6 = sextet (group a' b' c') 6 ->
   b = b')%N.
Proof.
  intros Hb Hc Hb' Hc' H12 H6.
  apply sextet_inj in H12. apply sextet_inj in H6.
  apply N.bits_inj. intros n.
  destruct (N.lt_ge_cases n 8) as [Hn|Hn].
  - rewrite <- (group_bits_mid a b c n), <- (group_bits_mid a' b' c' n) by done.
    destruct (N.lt_ge_cases (n + 8) 12).
    + apply (sextet_bits _ _ 6); [done|lia|lia].
    + apply (sextet_bits _ _ 12); [done|lia|lia].
  - rewrite (testbit_small b 8), (testbit_small b' 8);
      try done; by change (2 ^ 8)%N with 256%N.
Qed.

Lemma group_third (a b c a' b' c' : N) :
  (c < 256 -> c' < 256 ->
   sextet (group a b c) 6 = sextet (group a' b' c') 6 ->
   sextet (group a b c) 0 = sextet (group a' b' c') 0 ->
   c = c')%N.
Proof.
  intros Hc Hc' H6 H0.
  apply sextet_inj in H6. apply sextet_inj in H0.
  apply N.bits_inj. intros n.
  destruct (N.lt_ge_cases n 8) as [Hn|Hn].
  - rewrite <- (group_bits_lo a b c n), <- (group_bits_lo a' b' c' n) by done.
    destruct (N.lt_ge_cases n 6).
    + apply (sextet_bits _ _ 0); [done|lia|lia].
    + apply (sextet_bits _ _ 6); [done|lia|lia].
  - rewrite (testbit_small c 8), (testbit_small c' 8);
      try done; by change (2 ^ 8)%N with 256%N.
Qed.

Lemma group_one (x : N) : N.shiftl x 16 = group x 0 0.
Proof. unfold group. simpl. by rewrite N.lor_0_r. Qed.

Lemma group_two (x y : N) :
  N.lor (N.shiftl x 16) (N.shiftl y 8) = group x y 0.
Proof. unfold group. by rewrite N.lor_0_r. Qed.

Lemma String_inv (c c' : ascii) (s s' : string) :
  String c s = String c' s' -> c = c' /\ s = s'.
Proof. intros Heq. by inversion Heq. Qed.

Ltac fold_groups :=
  repeat match goal with
         | |- context [N.lor (N.shiftl ?x 16) (N.lor (N.shiftl ?y 8) ?z)] =>
             change (N.lor (N.shiftl x 16) (N.lor (N.shiftl y 8) z))
               with (group x y z)
         end;
  rewrite ?group_two, ?group_one.

Lemma EncodeToString_inj_le (n : nat) (src src' : list Byte.byte) :
  length src <= n ->
  EncodeToString src = EncodeToString src' -> src = src'.
Proof.
  revert src src'. induction n as [|n IH]; intros src src' Hlen.
  - destruct src; [|simpl in Hlen; lia].
    destruct src' as [|a' [|b' [|c' rest']]]; [done|discriminate..].
  - destruct src as [|a [|b [|c rest]]];
      destruct src' as [|a' [|b' [|c' rest']]];
      try discriminate; try done.
    all: cbn [EncodeToString]; cbv zeta; fold_groups.
    all: intros Heq;
      apply String_inv in Heq as [H18 Heq]; apply String_inv in Heq as [H12 Heq];
      apply String_inv in Heq as [H6 Heq]; apply String_inv in Heq as [H0 Heq].
    all: try (by apply sextet_not_padding in H6).
    all: try (symmetry in H6; by apply sextet_not_padding in H6).
    all: try (by apply sextet_not_padding in H0).
    all: try (symmetry in H0; by apply sextet_not_padding in H0).
    + f_equal. apply to_N_inj.
      by apply (group_first _ 0 0 _ 0 0); try apply to_N_lt.
    + f_equal; [|f_equal]; apply to_N_inj.
      * by apply (group_first _ (Byte.to_N b) 0 _ (Byte.to_N b') 0);
          try apply to_N_lt.
      * by apply (group_second (Byte.to_N a) _ 0 (Byte.to_N a') _ 0);
          try apply to_N_lt.
    + f_equal; [|f_equal; [|f_equal]]; try apply to_N_inj.
      * by apply (group_first _ (Byte.to_N b) (Byte.to_N c) _ (Byte.to_N b') (Byte.to_N c'));
          try apply to_N_lt.
      * by apply (group_second (Byte.to_N a) _ (Byte.to_N c) (Byte.to_N a') _ (Byte.to_N c'));
          try apply to_N_lt.
      * by apply (group_third (Byte.to_N a) (Byte.to_N b) _ (Byte.to_N a') (Byte.to_N b') _);
          try apply to_N_lt.
      * apply IH; [simpl in Hlen; lia|done].
Qed.

(** X23. The encoder is injective: two contents with the same encoding are
    the same bytes, so the contents of a commit request determine the bytes
    that were read. *)
Theorem EncodeToString_inj (src src' : list Byte.byte) :
  EncodeToString src = EncodeToString src' -> src = src'.
Proof. by apply (EncodeToString_inj_le (length src)). Qed.

Lemma EncodeToString_inj_witness : file_bytes "hi" = file_bytes "hi".
Proof.
  apply (EncodeToString_inj (file_bytes "hi") (file_bytes "hi")). reflexivity.
Defined.

(** X24. If the loop of the Change Collector builds the same addition for a
    qualifying path in two worlds, it has read the same bytes in both. *)
Theorem addition_determines_bytes (w1 w2 : World) (name : string)
  (status : FileStatus) :
  qualifies status = true ->
  result (addChange w1 [] (name, status)) = result (addChange w2 [] (name, status)) ->
  (os_ReadFile w1 name).1 = (os_ReadFile w2 name).1.
Proof.
  intros Hq. unfold addChange. rewrite Hq. simpl.
  destruct (os_ReadFile w1 name) as [b1 e1], (os_ReadFile w2 name) as [b2 e2].
  simpl. intros Heq. inversion Heq as [Henc].
  by apply (EncodeToString_inj_le (length b1)).
Qed.

Lemma addition_determines_bytes_witness :
  (os_ReadFile newBranchWorld "a.txt").1
  = (os_ReadFile (without_read_errors newBranchWorld) "a.txt").1.
Proof.
  apply (addition_determines_bytes newBranchWorld
           (without_read_errors newBranchWorld) "a.txt"
           (mkFileStatus Unmodified Modified));
    reflexivity.
Defined.
